(** * data_loader.load_csv: a shallow embedding and its verification

    The repository consists of one function, [load_csv] in
    src/data_loader.py.  It dispatches on the runtime type of its argument:
    a DataFrame is copied, a value that is neither [str], [bytes] nor
    [os.PathLike] is rejected with [TypeError], a path at which nothing
    exists is rejected with [FileNotFoundError], and anything else is
    handed to [pandas.read_csv].

    The embedding is a state-and-exception monad over a world made of an
    object heap (DataFrames are mutable and have identity), a POSIX file
    system and a log of the file-system calls performed.  The library
    functions the source calls ([isinstance], [pathlib.Path],
    [Path.exists], [DataFrame.copy], [read_csv]) are modelled next to it.

    Extent of the model.  Paths are POSIX paths, and [pathlib] is the one
    of Python 3.11.  A file system maps names in normal form to entries:
    a regular file with its bytes and a read permission, a directory, a
    directory that may be neither read nor searched, or a symbolic link
    that loops.  The system resolves a pathname component by component,
    from the root or from the working directory, which are directories
    that may be searched; it refuses a component of more than 255 bytes
    and a pathname of 4096 bytes or more, and Python refuses a name that
    holds a null byte.  Symbolic links that lead somewhere and parent
    segments are not interpreted: a world lists an entry under every name
    that leads to it.  A cell of a table is an integer, text, a missing
    value, or a reference to a list object on the heap, which stands for
    the mutable Python objects a column of objects holds.  Of [read_csv],
    the reading of a local file is modelled; sources that pandas would
    fetch from a remote location are outside the model.  Numeric inference
    covers signed 64-bit integers; cells that pandas would turn into
    floats, booleans or missing-value markers keep their text. *)

From Stdlib Require Import Ascii ZArith.
From stdpp Require Import gmap strings list fin_maps pretty.

(* ===================================================================== *)
(** * Part I: definitions                                                 *)
(* ===================================================================== *)

(** ** Text helpers *)

Module Text.

Definition slash : ascii := "/".
Definition comma : ascii := ",".
Definition dquote : ascii := ascii_of_nat 34.
Definition LF : ascii := ascii_of_nat 10.
Definition CR : ascii := ascii_of_nat 13.

(** [str.split(sep)]: the pieces between occurrences of [sep]; the result
    is never empty. *)
Fixpoint split_on (sep : ascii) (s : string) : list string :=
  match s with
  | EmptyString => [EmptyString]
  | String c s' =>
      if decide (c = sep) then EmptyString :: split_on sep s'
      else match split_on sep s' with
           | w :: ws => String c w :: ws
           | [] => [String c EmptyString]
           end
  end.

(** [sep.join(pieces)]. *)
Fixpoint join (sep : string) (l : list string) : string :=
  match l with
  | [] => EmptyString
  | [w] => w
  | w :: ws => w +:+ sep +:+ join sep ws
  end.

(** [s.startswith(p)]. *)
Fixpoint starts_with (p s : string) : bool :=
  match p, s with
  | EmptyString, _ => true
  | String a p', String b s' => bool_decide (a = b) && starts_with p' s'
  | String _ _, EmptyString => false
  end.

(** [needle in hay]. *)
Fixpoint includes (needle hay : string) : bool :=
  starts_with needle hay ||
  match hay with
  | EmptyString => false
  | String _ hay' => includes needle hay'
  end.

(** Characters of a string, as a list. *)
Fixpoint chars (s : string) : list ascii :=
  match s with
  | EmptyString => []
  | String c s' => c :: chars s'
  end.

(** Append one character at the end. *)
Definition snoc (s : string) (c : ascii) : string := s +:+ String c EmptyString.

(** A segment holds no separator. *)
Definition sep_free (sep : ascii) (w : string) : Prop := sep ∉ chars w.

Definition squote : ascii := "'".
Definition NUL : ascii := ascii_of_nat 0.
Definition backslash : ascii := ascii_of_nat 92.
Definition TAB : ascii := ascii_of_nat 9.

Definition hex_digit (n : N) : ascii :=
  ascii_of_N (if (n <? 10)%N then 48 + n else 87 + n)%N.

(** The escape [\xNN] of a character. *)
Definition hex_escape (c : ascii) : string :=
  String backslash
    (String "x"
       (String (hex_digit (N_of_ascii c / 16)) (String (hex_digit (N_of_ascii c mod 16))
          EmptyString))).

(** The inside of [repr(s)] between quotes [q]: the backslash, the quote
    in use and control characters are escaped.  A string is the UTF-8
    text of the Python string, and text outside ASCII is taken to be
    printable: its bytes are kept. *)
Fixpoint repr_body (q : ascii) (s : string) : string :=
  match s with
  | EmptyString => EmptyString
  | String c s' =>
      (if decide (c = backslash) then String backslash (String backslash EmptyString)
       else if decide (c = q) then String backslash (String q EmptyString)
       else if decide (c = LF) then String backslash "n"
       else if decide (c = CR) then String backslash "r"
       else if decide (c = TAB) then String backslash "t"
       else if ((N_of_ascii c <? 32) || (N_of_ascii c =? 127))%N then hex_escape c
       else String c EmptyString)
      +:+ repr_body q s'
  end.

(** [repr(s)] of a [str]: single quotes, unless the text holds a single
    quote and no double quote. *)
Definition py_repr (s : string) : string :=
  let q := if bool_decide (squote ∈ chars s) && negb (bool_decide (dquote ∈ chars s))
           then dquote else squote in
  String q (repr_body q s +:+ String q EmptyString).

End Text.

(** ** pathlib: pure POSIX paths

    [pathlib.PurePosixPath(s)] parses [s] into a root and a list of
    segments; empty segments and single dots are dropped, exactly two
    leading slashes are kept as the root [//], any other number of leading
    slashes is the root [/].  [str(p)] joins them again and is [.] when
    there is neither root nor segment.  A path object is represented by
    that text. *)

Module Pathlib.
Import Text.

Definition keep_segment (seg : string) : bool :=
  negb (bool_decide (seg = EmptyString)) && negb (bool_decide (seg = ".")).

Definition path_parts (s : string) : list string :=
  filter (fun seg => keep_segment seg = true) (split_on slash s).

Definition path_root (s : string) : string :=
  match s with
  | String a (String b (String c _)) =>
      if decide (a = slash) then
        if decide (b = slash) then
          if decide (c = slash) then "/" else "//"
        else "/"
      else EmptyString
  | String a (String b EmptyString) =>
      if decide (a = slash) then
        if decide (b = slash) then "//" else "/"
      else EmptyString
  | String a EmptyString => if decide (a = slash) then "/" else EmptyString
  | EmptyString => EmptyString
  end.

(** [str(PurePosixPath(s))]. *)
Definition normalize (s : string) : string :=
  match path_root s, path_parts s with
  | EmptyString, [] => "."
  | r, ps => r +:+ join "/" ps
  end.

(** The last raw component of a pathname is empty or a dot: the name
    can only be resolved to a directory ([a/], [a/.], [/], [.]). *)
Definition demands_directory (s : string) : bool :=
  match last (split_on slash s) with
  | Some seg => negb (keep_segment seg)
  | None => true
  end.

End Pathlib.

(** ** Python values, objects and exceptions *)

Definition addr := positive.

(** What [__fspath__] of a path-like object returns. *)
Inductive FsPath :=
| FStr (s : string)
| FBytes (b : string).

(** The values [load_csv] can be called with.  A DataFrame is a reference
    into the heap.  [VPath p] is a [pathlib.Path] whose text is [p].
    [VObj cls str fspath] is an instance of a user class [cls] whose
    [__str__] gives [str] and whose class defines [__fspath__] (returning
    [r]) when [fspath = Some r]. *)
#[warnings="-register-all"]
Inductive PyValue :=
| VDataFrame (a : addr)
| VStr (s : string)
| VBytes (b : string)
| VPath (p : string)
| VInt (n : Z)
| VNone
| VList (items : list PyValue)
| VObj (cls : string) (str : string) (fspath : option FsPath).

(** [pathlib.Path(s)] for a string [s]. *)
Definition PathObject (s : string) : PyValue := VPath (Pathlib.normalize s).

Inductive ExnKind :=
| TypeError
| FileNotFoundError
| IsADirectoryError
| NotADirectoryError
| PermissionError
| UnicodeDecodeError
| ParserError
| EmptyDataError
| ValueError
| OSError
| IndexError
| KeyError
| AttributeError
| SystemError.

Record Exn := mkExn { exn_kind : ExnKind; exn_msg : string }.

#[global] Instance ExnKind_eq_dec : EqDecision ExnKind.
Proof. solve_decision. Defined.
#[global] Instance Exn_eq_dec : EqDecision Exn.
Proof. solve_decision. Defined.

(** Cells of a table: 64-bit integers, text, a missing value, or, in a
    column of objects, a reference to a Python object on the heap. *)
Inductive Cell :=
| CInt (z : Z)
| CStr (s : string)
| CMissing
| CRef (o : addr).

#[global] Instance Cell_eq_dec : EqDecision Cell.
Proof. solve_decision. Defined.

(** A DataFrame by value: named columns, in order, each with its cells. *)
Definition Table := list (string * list Cell).

(** Heap objects: a column buffer, a DataFrame that refers to one buffer
    per column, or a Python list, the mutable object a cell may refer to. *)
Inductive Obj :=
| OArray (data : list Cell)
| OFrame (cols : list (string * addr))
| OList (items : list Cell).

(** File-system entries, keyed in the world by their name in normal
    form, relative to the working directory or from the root [/]: a
    regular file, a directory, a directory that may be neither read nor
    searched, or a symbolic link that leads back to itself. *)
Inductive Entry :=
| EFile (readable : bool) (content : string)
| EDir
| ELockedDir
| ELinkLoop.

#[global] Instance Entry_eq_dec : EqDecision Entry.
Proof. solve_decision. Defined.

(** File-system calls, as a monitor would record them. *)
Inductive FsEvent :=
| EvStat (p : string)
| EvOpen (p : string).

Record World := mkWorld {
  heap : gmap addr Obj;
  fs : gmap string Entry;
  fs_log : list FsEvent
}.

(** ** The monad: state passing with exceptions *)

Inductive Outcome (A : Type) :=
| Ret (a : A)
| Raise (e : Exn).
Arguments Ret {A} a.
Arguments Raise {A} e.

Definition Py (A : Type) : Type := World -> Outcome A * World.

Definition ret {A} (a : A) : Py A := fun w => (Ret a, w).

Definition raise {A} (k : ExnKind) (msg : string) : Py A :=
  fun w => (Raise (mkExn k msg), w).

Definition bind {A B} (m : Py A) (f : A -> Py B) : Py B :=
  fun w =>
    match m w with
    | (Ret a, w') => f a w'
    | (Raise e, w') => (Raise e, w')
    end.

(** A computation without effects that may raise. *)
Definition lift {A} (o : Outcome A) : Py A := fun w => (o, w).

Declare Scope py_scope.
Delimit Scope py_scope with py.
Notation "x <- c1 ;; c2" := (bind c1 (fun x => c2))
  (at level 100, c1 at next level, right associativity) : py_scope.
Open Scope py_scope.

(** A computation that leaves the file system and its log alone. *)
Definition fs_untouched {A} (m : Py A) : Prop :=
  ∀ w, fs (snd (m w)) = fs w ∧ fs_log (snd (m w)) = fs_log w.

(** A computation that changes no object already on the heap, and puts
    no list object on it. *)
Definition only_allocates {A} (m : Py A) : Prop :=
  ∀ w, heap w ⊆ heap (snd (m w))
       ∧ ∀ x items, heap (snd (m w)) !! x = Some (OList items) →
                    heap w !! x = Some (OList items).

(** ** The heap *)

(** A new object gets an address no object has. *)
Definition alloc (o : Obj) : Py addr :=
  fun w =>
    let a := fresh (dom (heap w)) in
    (Ret a, mkWorld (<[a:=o]> (heap w)) (fs w) (fs_log w)).

Definition deref_frame (a : addr) : Py (list (string * addr)) :=
  fun w =>
    match heap w !! a with
    | Some (OFrame cols) => (Ret cols, w)
    | _ => (Raise (mkExn SystemError "not a DataFrame object"), w)
    end.

Definition deref_array (b : addr) : Py (list Cell) :=
  fun w =>
    match heap w !! b with
    | Some (OArray data) => (Ret data, w)
    | _ => (Raise (mkExn SystemError "not an array object"), w)
    end.

Definition deref_list (o : addr) : Py (list Cell) :=
  fun w =>
    match heap w !! o with
    | Some (OList items) => (Ret items, w)
    | _ => (Raise (mkExn AttributeError "object has no attribute 'append'"), w)
    end.

Definition store (a : addr) (o : Obj) : Py unit :=
  fun w => (Ret tt, mkWorld (<[a:=o]> (heap w)) (fs w) (fs_log w)).

(** The value of the DataFrame at [a]: its columns with their cells, when
    [a] is a DataFrame all of whose buffers are there. *)
Fixpoint columns_value (h : gmap addr Obj) (cols : list (string * addr)) : option Table :=
  match cols with
  | [] => Some []
  | (name, b) :: rest =>
      match h !! b, columns_value h rest with
      | Some (OArray data), Some t => Some ((name, data) :: t)
      | _, _ => None
      end
  end.

Definition frame_value (h : gmap addr Obj) (a : addr) : option Table :=
  match h !! a with
  | Some (OFrame cols) => columns_value h cols
  | _ => None
  end.

(** The addresses a DataFrame occupies: its own and those of its buffers. *)
Definition footprint (h : gmap addr Obj) (a : addr) : gset addr :=
  match h !! a with
  | Some (OFrame cols) => {[a]} ∪ list_to_set (map snd cols)
  | _ => {[a]}
  end.

(** What a cell shows: the cell, and for a reference to a list the items
    of that list. *)
Definition cell_view (h : gmap addr Obj) (c : Cell) : Cell * option (list Cell) :=
  (c, match c with
      | CRef o => match h !! o with
                  | Some (OList items) => Some items
                  | _ => None
                  end
      | _ => None
      end).

(** The DataFrame at [a] as its holder sees it: the cells of every
    column, each with the object it refers to. *)
Definition table_view (h : gmap addr Obj) (a : addr)
  : option (list (string * list (Cell * option (list Cell)))) :=
  match frame_value h a with
  | Some t => Some (map (fun col : string * list Cell => (col.1, map (cell_view h) col.2)) t)
  | None => None
  end.

Definition scalar_cell (c : Cell) : bool :=
  match c with
  | CRef _ => false
  | _ => true
  end.

(** A table none of whose cells is a reference. *)
Definition scalar_table (t : Table) : bool :=
  forallb (fun col : string * list Cell => forallb scalar_cell col.2) t.

(** No list object is changed, created or removed from one heap to the
    other. *)
Definition lists_kept (h h' : gmap addr Obj) : Prop :=
  ∀ x items, h !! x = Some (OList items) ↔ h' !! x = Some (OList items).

(** Shape of a table. *)
Definition column_names (t : Table) : list string := map fst t.

Definition n_rows (t : Table) : nat :=
  match t with
  | [] => 0
  | (_, data) :: _ => length data
  end.

(** Row [i]: the [i]-th cell of every column, when every column has one. *)
Definition table_row (t : Table) (i : nat) : option (list Cell) :=
  mapM (fun col : string * list Cell => snd col !! i) t.

(** ** The operating system: POSIX path resolution, stat and open *)

Module Os.
Import Pathlib.

(** The error numbers of the system calls.  [EMBEDDED_NULL] is none: a
    name that holds a null byte is refused by Python before any system
    call, with [ValueError]. *)
Inductive Errno :=
  ENOENT | ENOTDIR | EISDIR | EACCES | ELOOP | ENAMETOOLONG | EMBEDDED_NULL.

(** The longest component, and the length no pathname may reach. *)
Definition NAME_MAX : nat := 255.
Definition PATH_MAX : nat := 4096.

Definition has_null (s : string) : bool := bool_decide (Text.NUL ∈ Text.chars s).

(** What keeps the system from looking a name up in an entry: only a
    directory that may be searched has names in it. *)
Definition enter (en : Entry) : option Errno :=
  match en with
  | EDir => None
  | EFile _ _ => Some ENOTDIR
  | ELockedDir => Some EACCES
  | ELinkLoop => Some ELOOP
  end.

(** The root the system starts from: every number of leading slashes is
    the root directory. *)
Definition sys_root (s : string) : string :=
  match path_root s with
  | EmptyString => EmptyString
  | _ => "/"
  end.

(** The name under which the world knows the entry [seg] of the
    directory reached through the components [seen]. *)
Definition child (root : string) (seen : list string) (seg : string) : string :=
  root +:+ Text.join "/" (seen ++ [seg]).

(** The walk of the system through the components of a pathname, from
    the entry [cur] reached through [seen].  An empty component (a
    repeated or final slash) asks that the entry be no regular file; a
    dot stays where it is and any other component is looked up, both only
    in a directory that may be searched; a symbolic link that loops
    cannot be followed. *)
Fixpoint walk (files : gmap string Entry) (root : string) (seen : list string)
    (cur : Entry) (segs : list string) : Errno + Entry :=
  match segs with
  | [] => inr cur
  | seg :: rest =>
      if decide (seg = EmptyString) then
        match cur with
        | EFile _ _ => inl ENOTDIR
        | _ => walk files root seen cur rest
        end
      else
        match enter cur with
        | Some e => inl e
        | None =>
            if decide (seg = ".") then walk files root seen cur rest
            else if NAME_MAX <? String.length seg then inl ENAMETOOLONG
            else match files !! child root seen seg with
                 | None => inl ENOENT
                 | Some ELinkLoop => inl ELOOP
                 | Some en => walk files root (seen ++ [seg]) en rest
                 end
        end
  end.

(** Resolution of a pathname as [stat] and [open] see it: a name with a
    null byte never reaches the system; the empty pathname names nothing;
    a pathname of [PATH_MAX] bytes or more is refused; any other is
    walked from the root or from the working directory, which are
    directories that may be searched. *)
Definition resolve (files : gmap string Entry) (s : string) : Errno + Entry :=
  if has_null s then inl EMBEDDED_NULL
  else if decide (s = EmptyString) then inl ENOENT
  else if PATH_MAX <=? String.length s then inl ENAMETOOLONG
  else walk files (sys_root s) [] EDir (Text.split_on Text.slash s).

(** The failures of a stat that [pathlib] takes for the answer that
    nothing is there: the error numbers of [_IGNORED_ERRNOS] and the
    [ValueError] of a name the system cannot take.  Any other error of a
    stat is raised. *)
Definition ignore_error (e : Errno) : bool :=
  match e with
  | ENOENT | ENOTDIR | ELOOP | EMBEDDED_NULL => true
  | _ => false
  end.

(** Nothing exists at the name: the stat fails with an error that says
    so. *)
Definition nothing_at (files : gmap string Entry) (s : string) : bool :=
  match resolve files s with
  | inl e => ignore_error e
  | inr _ => false
  end.

(** The entry a pathname names, if it names one. *)
Definition entry_at (files : gmap string Entry) (s : string) : option Entry :=
  match resolve files s with
  | inr e => Some e
  | inl _ => None
  end.

(** The exception of a failed call on the name [s]: the class of the
    error number, and the message [[Errno n] text: repr(s)]. *)
Definition errno_exn (e : Errno) (s : string) : Exn :=
  match e with
  | ENOENT =>
      mkExn FileNotFoundError ("[Errno 2] No such file or directory: " +:+ Text.py_repr s)
  | ENOTDIR => mkExn NotADirectoryError ("[Errno 20] Not a directory: " +:+ Text.py_repr s)
  | EISDIR => mkExn IsADirectoryError ("[Errno 21] Is a directory: " +:+ Text.py_repr s)
  | EACCES => mkExn PermissionError ("[Errno 13] Permission denied: " +:+ Text.py_repr s)
  | ELOOP =>
      mkExn OSError ("[Errno 40] Too many levels of symbolic links: " +:+ Text.py_repr s)
  | ENAMETOOLONG => mkExn OSError ("[Errno 36] File name too long: " +:+ Text.py_repr s)
  | EMBEDDED_NULL => mkExn ValueError "embedded null byte"
  end.

Definition log_event (ev : FsEvent) (w : World) : World :=
  mkWorld (heap w) (fs w) (fs_log w ++ [ev]).

(** [os.stat(s)]. *)
Definition stat (s : string) : Py (Errno + Entry) :=
  fun w => (Ret (resolve (fs w) s), log_event (EvStat s) w).

(** What reading the name [s] gives: the bytes of a readable regular
    file, or the error of the open. *)
Definition file_bytes (files : gmap string Entry) (s : string) : Outcome string :=
  match resolve files s with
  | inl e => Raise (errno_exn e s)
  | inr (EFile true content) => Ret content
  | inr (EFile false _) | inr ELockedDir => Raise (errno_exn EACCES s)
  | inr EDir => Raise (errno_exn EISDIR s)
  | inr ELinkLoop => Raise (errno_exn ELOOP s)
  end.

(** [open(s).read()] in binary: the bytes of a readable regular file. *)
Definition read_file (s : string) : Py string :=
  fun w => (file_bytes (fs w) s, log_event (EvOpen s) w).

End Os.

(** ** Runtime type inspection and path construction *)

Definition type_name (v : PyValue) : string :=
  match v with
  | VDataFrame _ => "pandas.core.frame.DataFrame"
  | VStr _ => "str"
  | VBytes _ => "bytes"
  | VPath _ => "pathlib.PosixPath"
  | VInt _ => "int"
  | VNone => "NoneType"
  | VList _ => "list"
  | VObj cls _ _ => cls
  end.

(** [str(type(v))], as an f-string prints [type(v)]. *)
Definition type_repr (v : PyValue) : string :=
  "<class '" +:+ type_name v +:+ "'>".

(** [isinstance(v, DataFrame)]. *)
Definition isinstance_DataFrame (v : PyValue) : bool :=
  match v with
  | VDataFrame _ => true
  | _ => false
  end.

(** [isinstance(v, (str, bytes, PathLike))].  [os.PathLike] is an abstract
    class that accepts every object whose class defines [__fspath__]. *)
Definition isinstance_str_bytes_PathLike (v : PyValue) : bool :=
  match v with
  | VStr _ | VBytes _ | VPath _ => true
  | VObj _ _ (Some _) => true
  | _ => false
  end.

(** [os.fspath(v)]. *)
Definition os_fspath (v : PyValue) : Outcome FsPath :=
  match v with
  | VStr s => Ret (FStr s)
  | VBytes b => Ret (FBytes b)
  | VPath p => Ret (FStr p)
  | VObj _ _ (Some r) => Ret r
  | _ => Raise (mkExn TypeError
                  ("expected str, bytes or os.PathLike object, not " +:+ type_name v))
  end.

(** [pathlib.Path(v)]: only text makes a path; bytes are refused, with
    [TypeError].  The message is that of Python 3.11; later versions word
    it differently, and no theorem depends on the wording. *)
Definition Path (v : PyValue) : Outcome string :=
  match os_fspath v with
  | Ret (FStr s) => Ret (Pathlib.normalize s)
  | Ret (FBytes _) =>
      Raise (mkExn TypeError
        "argument should be a str object or an os.PathLike object returning str, not <class 'bytes'>")
  | Raise e => Raise e
  end.

(** [p.exists()] (Python 3.11): a stat; [True] when it succeeds, [False]
    when it fails with an error that says nothing is there, and any other
    error of the stat is raised. *)
Definition Path_exists (p : string) : Py bool :=
  r <- Os.stat p ;;
  match r with
  | inr _ => ret true
  | inl e => if Os.ignore_error e then ret false else lift (Raise (Os.errno_exn e p))
  end.

(** [f"{v}"], that is [str(v)], for the values whose text the source
    prints; the type gate lets no other value reach the f-string. *)
Definition format_value (v : PyValue) : string :=
  match v with
  | VStr s => s
  | VBytes b => "b'" +:+ b +:+ "'"
  | VPath p => p
  | VObj _ str _ => str
  | VInt n => pretty n
  | VNone => "None"
  | VDataFrame _ | VList _ => "<" +:+ type_name v +:+ " object>"
  end.

(** ** pandas: DataFrame objects *)

Module Pandas.
Import Text.

(** One fresh buffer per column, holding the same cells. *)
Fixpoint copy_columns (cols : list (string * addr)) : Py (list (string * addr)) :=
  match cols with
  | [] => ret []
  | (name, b) :: rest =>
      data <- deref_array b ;;
      b' <- alloc (OArray data) ;;
      rest' <- copy_columns rest ;;
      ret ((name, b') :: rest')
  end.

(** [df.copy(deep)]: a new DataFrame object; with [deep] (the default)
    the column buffers are copied, without it they are shared. *)
Definition DataFrame_copy (deep : bool) (v : PyValue) : Py PyValue :=
  match v with
  | VDataFrame a =>
      cols <- deref_frame a ;;
      cols' <- (if deep then copy_columns cols else ret cols) ;;
      r <- alloc (OFrame cols') ;;
      ret (VDataFrame r)
  | _ => raise AttributeError ("'" +:+ type_name v +:+ "' object has no attribute 'copy'")
  end.

(** In-place changes a caller can make through a DataFrame: to the
    table's own storage, or to a list object that a cell refers to. *)
Inductive Mutation :=
| SetCell (i j : nat) (v : Cell)              (* df.iat[i, j] = v *)
| SetColumn (name : string) (data : list Cell) (* df[name] = data *)
| DropColumn (name : string)                  (* del df[name] *)
| AppendToCell (i j : nat) (v : Cell).        (* df.iat[i, j].append(v) *)

(** The mutations of the table's own storage. *)
Definition own_storage (m : Mutation) : bool :=
  match m with
  | AppendToCell _ _ _ => false
  | _ => true
  end.

Fixpoint set_column (name : string) (b : addr) (cols : list (string * addr))
  : list (string * addr) :=
  match cols with
  | [] => [(name, b)]
  | (n, b0) :: rest =>
      if decide (n = name) then (n, b) :: rest
      else (n, b0) :: set_column name b rest
  end.

Definition mutate (a : addr) (m : Mutation) : Py unit :=
  match m with
  | SetCell i j v =>
      cols <- deref_frame a ;;
      match cols !! j with
      | None => raise IndexError "index is out of bounds"
      | Some (_, b) =>
          data <- deref_array b ;;
          if decide (i < length data) then store b (OArray (<[i:=v]> data))
          else raise IndexError "index is out of bounds"
      end
  | SetColumn name data =>
      cols <- deref_frame a ;;
      b <- alloc (OArray data) ;;
      store a (OFrame (set_column name b cols))
  | DropColumn name =>
      cols <- deref_frame a ;;
      if bool_decide (name ∈ map fst cols)
      then store a (OFrame (filter (fun c => fst c ≠ name) cols))
      else raise KeyError name
  | AppendToCell i j v =>
      cols <- deref_frame a ;;
      match cols !! j with
      | None => raise IndexError "index is out of bounds"
      | Some (_, b) =>
          data <- deref_array b ;;
          match data !! i with
          | None => raise IndexError "index is out of bounds"
          | Some (CRef o) =>
              items <- deref_list o ;;
              store o (OList (items ++ [v]))
          | Some _ => raise AttributeError "object has no attribute 'append'"
          end
      end
  end.

(** A caller applying mutations one after the other, going on after a
    mutation that raised. *)
Definition mutate_all (a : addr) (ms : list Mutation) (w : World) : World :=
  fold_left (fun w m => snd (mutate a m w)) ms w.

(** A DataFrame object for a table: a buffer per column, then the frame. *)
Fixpoint alloc_columns (t : Table) : Py (list (string * addr)) :=
  match t with
  | [] => ret []
  | (name, data) :: rest =>
      b <- alloc (OArray data) ;;
      rest' <- alloc_columns rest ;;
      ret ((name, b) :: rest')
  end.

Definition alloc_table (t : Table) : Py addr :=
  cols <- alloc_columns t ;;
  alloc (OFrame cols).

End Pandas.

(** ** pandas: read_csv

    [pandas.read_csv] is a library function and not part of the
    repository.  Its conversion of the bytes of a file into a table is
    modelled from section 4.1, step 4 and section 6 of the specification:
    default text encoding (UTF-8), comma-delimited records, RFC 4180 style
    quoting, first record as header, integer columns numeric and every
    other column text. *)

Module Csv.
Import Text.

Definition byte_in (lo hi : N) (c : ascii) : bool :=
  ((lo <=? N_of_ascii c) && (N_of_ascii c <=? hi))%N.

Definition continuation (c : ascii) : bool := byte_in 128 191 c.

Definition three_bytes (c0 c1 : ascii) : bool :=
  (byte_in 224 224 c0 && byte_in 160 191 c1)
  || (byte_in 225 236 c0 && continuation c1)
  || (byte_in 237 237 c0 && byte_in 128 159 c1)
  || (byte_in 238 239 c0 && continuation c1).

Definition four_bytes (c0 c1 : ascii) : bool :=
  (byte_in 240 240 c0 && byte_in 144 191 c1)
  || (byte_in 241 243 c0 && continuation c1)
  || (byte_in 244 244 c0 && byte_in 128 143 c1).

(** Modelled from the spec: pandas' decoding of the file is not in the
    repository; the bytes must be well-formed UTF-8, the text encoding
    [read_csv] uses by default. *)
Fixpoint utf8_valid (s : string) : bool :=
  match s with
  | EmptyString => true
  | String c0 s1 =>
      if byte_in 0 127 c0 then utf8_valid s1
      else match s1 with
           | EmptyString => false
           | String c1 s2 =>
               if byte_in 194 223 c0 then continuation c1 && utf8_valid s2
               else match s2 with
                    | EmptyString => false
                    | String c2 s3 =>
                        if three_bytes c0 c1 then continuation c2 && utf8_valid s3
                        else match s3 with
                             | EmptyString => false
                             | String c3 s4 =>
                                 four_bytes c0 c1 && continuation c2
                                 && continuation c3 && utf8_valid s4
                             end
                    end
           end
  end.

Definition decode (bytes : string) : Outcome string :=
  if utf8_valid bytes then Ret bytes
  else Raise (mkExn UnicodeDecodeError "'utf-8' codec can't decode the data: invalid byte sequence").

(** States of the tokenizer. *)
Inductive TokState :=
| START_RECORD
| START_FIELD
| IN_FIELD
| IN_QUOTED_FIELD
| QUOTE_IN_QUOTED_FIELD
| EAT_CRNL.

(** The tokenizer's registers: the field being read, the fields of the
    record being read, and the records read so far. *)
Record Tok := mkTok {
  tok_state : TokState;
  tok_field : string;
  tok_record : list string;
  tok_records : list (list string)
}.

Definition tok_init : Tok := mkTok START_RECORD EmptyString [] [].

Definition push_char (c : ascii) (st : TokState) (t : Tok) : Tok :=
  mkTok st (snoc (tok_field t) c) (tok_record t) (tok_records t).

Definition end_field (st : TokState) (t : Tok) : Tok :=
  mkTok st EmptyString (tok_record t ++ [tok_field t]) (tok_records t).

Definition end_line (st : TokState) (t : Tok) : Tok :=
  mkTok st EmptyString [] (tok_records t ++ [tok_record t ++ [tok_field t]]).

Definition set_state (st : TokState) (t : Tok) : Tok :=
  mkTok st (tok_field t) (tok_record t) (tok_records t).

Definition step_start_field (c : ascii) (t : Tok) : Tok :=
  if decide (c = LF) then end_line START_RECORD t
  else if decide (c = CR) then end_line EAT_CRNL t
  else if decide (c = dquote) then set_state IN_QUOTED_FIELD t
  else if decide (c = comma) then end_field START_FIELD t
  else push_char c IN_FIELD t.

(** At the start of a record an empty line is skipped. *)
Definition step_start_record (c : ascii) (t : Tok) : Tok :=
  if decide (c = LF) then set_state START_RECORD t
  else if decide (c = CR) then set_state EAT_CRNL t
  else step_start_field c t.

(** Modelled from the spec: the tokenizer of [read_csv] is not in the
    repository; one step of a comma-delimited reader with standard
    quoting: a field in double quotes may hold commas and line breaks,
    and a doubled quote inside it stands for one quote. *)
Definition tok_step (t : Tok) (c : ascii) : Tok :=
  match tok_state t with
  | START_RECORD => step_start_record c t
  | START_FIELD => step_start_field c t
  | IN_FIELD =>
      if decide (c = LF) then end_line START_RECORD t
      else if decide (c = CR) then end_line EAT_CRNL t
      else if decide (c = comma) then end_field START_FIELD t
      else push_char c IN_FIELD t
  | IN_QUOTED_FIELD =>
      if decide (c = dquote) then set_state QUOTE_IN_QUOTED_FIELD t
      else push_char c IN_QUOTED_FIELD t
  | QUOTE_IN_QUOTED_FIELD =>
      if decide (c = dquote) then push_char c IN_QUOTED_FIELD t
      else if decide (c = comma) then end_field START_FIELD t
      else if decide (c = LF) then end_line START_RECORD t
      else if decide (c = CR) then end_line EAT_CRNL t
      else push_char c IN_FIELD t
  | EAT_CRNL =>
      if decide (c = LF) then set_state START_RECORD t
      else step_start_record c (set_state START_RECORD t)
  end.

(** End of input: a record in progress is closed; an open quoted field
    is an error. *)
Definition tok_eof (t : Tok) : Outcome (list (list string)) :=
  match tok_state t with
  | START_RECORD | EAT_CRNL => Ret (tok_records t)
  | IN_QUOTED_FIELD =>
      Raise (mkExn ParserError "Error tokenizing data. C error: EOF inside string")
  | START_FIELD | IN_FIELD | QUOTE_IN_QUOTED_FIELD =>
      Ret (tok_records t ++ [tok_record t ++ [tok_field t]])
  end.

(** The tokenizer run over a text. *)
Definition run (t : Tok) (text : string) : Tok :=
  fold_left tok_step (chars text) t.

Definition tokenize (text : string) : Outcome (list (list string)) :=
  tok_eof (run tok_init text).

(** Integer literals: an optional sign and at least one digit. *)
Definition digit_value (c : ascii) : option Z :=
  if byte_in 48 57 c then Some (Z.of_N (N_of_ascii c) - 48)%Z else None.

Fixpoint parse_digits (acc : Z) (s : string) : option Z :=
  match s with
  | EmptyString => Some acc
  | String c s' =>
      match digit_value c with
      | Some d => parse_digits (10 * acc + d)%Z s'
      | None => None
      end
  end.

Definition parse_int (s : string) : option Z :=
  match s with
  | EmptyString => None
  | String c s' =>
      if decide (c = "-"%char) then
        match s' with
        | EmptyString => None
        | _ => Z.opp <$> parse_digits 0 s'
        end
      else if decide (c = "+"%char) then
        match s' with
        | EmptyString => None
        | _ => parse_digits 0 s'
        end
      else parse_digits 0 s
  end.

(** A value of a signed 64-bit column. *)
Definition parse_int64 (s : string) : option Z :=
  z ← parse_int s;
  if ((- 2 ^ 63 <=? z) && (z <? 2 ^ 63))%Z then Some z else None.

Definition text_cell (o : option string) : Cell :=
  match o with
  | Some s => CStr s
  | None => CMissing
  end.

(** Modelled from the spec: the type inference of [read_csv] is not in
    the repository; a column whose every field is an integer is numeric,
    any other column keeps the text of its fields. *)
Definition infer_column (raw : list (option string)) : list Cell :=
  match mapM (fun o : option string => o ≫= parse_int64) raw with
  | Some zs => map CInt zs
  | None => map text_cell raw
  end.

(** Modelled from the spec: the construction of the table by [read_csv]
    is not in the repository; the first record names the columns and is
    not a row, every later record is one row; a record longer than the
    header is an error, a shorter one leaves its last cells missing. *)
Definition build_table (records : list (list string)) : Outcome Table :=
  match records with
  | [] => Raise (mkExn EmptyDataError "No columns to parse from file")
  | header :: data =>
      if forallb (fun r => length r <=? length header) data
      then Ret (imap (fun j name => (name, infer_column (map (fun r : list string => r !! j) data)))
                  header)
      else Raise (mkExn ParserError "Error tokenizing data. C error: too many fields in a line")
  end.

Definition parse_csv (bytes : string) : Outcome Table :=
  match decode bytes with
  | Ret text =>
      match tokenize text with
      | Ret records => build_table records
      | Raise e => Raise e
      end
  | Raise e => Raise e
  end.

(** Modelled from the spec: [pandas.read_csv] is not in the repository;
    it opens the file its argument names (a string as it is, a path-like
    object through [__fspath__]), parses the content as CSV and returns
    a new DataFrame.  Failures of the open and of the parse are raised
    as they are. *)
Definition read_csv (source : PyValue) : Py PyValue :=
  match os_fspath source with
  | Ret (FStr s) =>
      bytes <- Os.read_file s ;;
      t <- lift (parse_csv bytes) ;;
      a <- Pandas.alloc_table t ;;
      ret (VDataFrame a)
  | _ => raise ValueError ("Invalid file path or buffer object type: " +:+ type_repr source)
  end.

(** *** Well-formed CSV files

    The files the round-trip property of the specification speaks of,
    as a grammar: records of fields, a field written plainly (no comma,
    quote or line break in it) or in double quotes with its quotes
    doubled; records end with a line feed, or carriage return and line
    feed; the last record may lack its end of line. *)

Inductive Field :=
| Plain (s : string)
| Quoted (s : string).

Definition field_value (f : Field) : string :=
  match f with
  | Plain s | Quoted s => s
  end.

Definition plain_char (c : ascii) : bool :=
  negb (bool_decide (c = comma)) && negb (bool_decide (c = dquote))
  && negb (bool_decide (c = LF)) && negb (bool_decide (c = CR)).

Definition field_ok (f : Field) : bool :=
  match f with
  | Plain s => forallb plain_char (chars s)
  | Quoted _ => true
  end.

Fixpoint escape_quotes (s : string) : string :=
  match s with
  | EmptyString => EmptyString
  | String c s' =>
      if decide (c = dquote) then String dquote (String dquote (escape_quotes s'))
      else String c (escape_quotes s')
  end.

Definition render_field (f : Field) : string :=
  match f with
  | Plain s => s
  | Quoted s => String dquote (escape_quotes s +:+ String dquote EmptyString)
  end.

Definition render_record (r : list Field) : string :=
  join "," (map render_field r).

Definition eol (crlf : bool) : string :=
  if crlf then String CR (String LF EmptyString) else String LF EmptyString.

Fixpoint render_lines (crlf final_eol : bool) (records : list (list Field)) : string :=
  match records with
  | [] => EmptyString
  | [r] => render_record r +:+ (if final_eol then eol crlf else EmptyString)
  | r :: rest => render_record r +:+ eol crlf +:+ render_lines crlf final_eol rest
  end.

(** A record has a field, and is not the one plain empty field, which
    would be written as an empty line. *)
Definition record_ok (r : list Field) : bool :=
  match r with
  | [] => false
  | [Plain EmptyString] => false
  | _ => forallb field_ok r
  end.

(** A header and rows with as many fields as the header. *)
Definition well_formed (header : list Field) (rows : list (list Field)) : bool :=
  record_ok header
  && forallb (fun r => record_ok r && bool_decide (length r = length header)) rows.

(** The registers after a field has been read. *)
Definition after_field (f : Field) (r : list string) (rs : list (list string)) : Tok :=
  mkTok (match f with
         | Plain EmptyString => START_FIELD
         | Plain _ => IN_FIELD
         | Quoted _ => QUOTE_IN_QUOTED_FIELD
         end) (field_value f) r rs.

(** A cell holds what a field says: the integer it denotes, or its text. *)
Definition cell_reads (c : Cell) (s : string) : bool :=
  match c with
  | CInt z => bool_decide (parse_int64 s = Some z)
  | CStr s' => bool_decide (s' = s)
  | CMissing | CRef _ => false
  end.

End Csv.

(** ** The source: data_loader.load_csv *)

Definition load_csv (source : PyValue) : Py PyValue :=
  (* if it already is a Dataframe, return it *)
  if isinstance_DataFrame source then
    Pandas.DataFrame_copy true source
  (* Otherwise, assume it is a file path *)
  else if negb (isinstance_str_bytes_PathLike source) then
    raise TypeError
      ("source must be a file path or a pandas dataframe: " +:+ type_repr source)
  else
    (* Check if file exists *)
    p <- lift (Path source) ;;
    found <- Path_exists p ;;
    if negb found then
      raise FileNotFoundError ("File " +:+ format_value source +:+ " not found.")
    else
      (* Load CSV into DataFrame *)
      Csv.read_csv source.

(** ** What a caller observes of a call

    A returned DataFrame is observed by value; an exception by its class
    and message. *)

Inductive Observation :=
| ObsTable (t : Table)
| ObsError (k : ExnKind) (msg : string)
| ObsOther.

Definition observe (r : Outcome PyValue * World) : Observation :=
  match fst r with
  | Ret (VDataFrame a) =>
      match frame_value (heap (snd r)) a with
      | Some t => ObsTable t
      | None => ObsOther
      end
  | Ret _ => ObsOther
  | Raise e => ObsError (exn_kind e) (exn_msg e)
  end.

(** The same, without the text of the message. *)
Definition observe_kind (r : Outcome PyValue * World) : Observation :=
  match observe r with
  | ObsError k _ => ObsError k EmptyString
  | o => o
  end.

(** ** load_csv on a path, as a function of the file system *)

(** An outcome, as the caller observes it. *)
Definition obs_of (o : Outcome Table) : Observation :=
  match o with
  | Ret t => ObsTable t
  | Raise e => ObsError (exn_kind e) (exn_msg e)
  end.

(** What reading the file named [s] gives. *)
Definition read_outcome (files : gmap string Entry) (s : string) : Outcome Table :=
  match Os.file_bytes files s with
  | Ret content => Csv.parse_csv content
  | Raise e => Raise e
  end.

(** What [load_csv] gives for a source that is not a DataFrame. *)
Definition path_outcome (files : gmap string Entry) (v : PyValue) : Outcome Table :=
  if negb (isinstance_str_bytes_PathLike v) then
    Raise (mkExn TypeError
             ("source must be a file path or a pandas dataframe: " +:+ type_repr v))
  else
    match Path v, os_fspath v with
    | Raise e, _ => Raise e
    | Ret p, Ret (FStr s) =>
        match Os.resolve files p with
        | inr _ => read_outcome files s
        | inl e =>
            if Os.ignore_error e
            then Raise (mkExn FileNotFoundError ("File " +:+ format_value v +:+ " not found."))
            else Raise (Os.errno_exn e p)
        end
    | Ret _, _ => Raise (mkExn ValueError
                           ("Invalid file path or buffer object type: " +:+ type_repr v))
    end.

(** ** Sample worlds, used to run the model *)

Module Sample.
Import Text.

Definition line (s : string) : string := snoc s LF.

(** The file of the specification's round-trip property. *)
Definition people_csv : string := line "id,name" +:+ line "1,alice" +:+ line "2,bob".

(** A quoted field that is never closed. *)
Definition broken_csv : string := line "id,name" +:+ String dquote "1,alice".

(** A Latin-1 e-acute: not UTF-8. *)
Definition latin1_csv : string := line "name" +:+ line (String (ascii_of_nat 233) "ve").

Definition files : gmap string Entry :=
  {[ "/tmp" := EDir;
     "file.csv" := EFile true people_csv;
     "broken.csv" := EFile true broken_csv;
     "latin1.csv" := EFile true latin1_csv;
     "secret.csv" := EFile false people_csv ]}.

(** A world whose heap holds one DataFrame, at address 3, with the
    columns [id] and [name]. *)
Definition objects : gmap addr Obj :=
  {[ 1%positive := OArray [CInt 1; CInt 2];
     2%positive := OArray [CStr "alice"; CStr "bob"];
     3%positive := OFrame [("id", 1%positive); ("name", 2%positive)] ]}.

Definition world : World := mkWorld objects files [].

Definition people : Table :=
  [("id", [CInt 1; CInt 2]); ("name", [CStr "alice"; CStr "bob"])].

(** A world whose heap holds a DataFrame, at address 3, with a column of
    objects: the one cell of [tags] refers to the list at address 1. *)
Definition tagged_objects : gmap addr Obj :=
  {[ 1%positive := OList [CStr "red"];
     2%positive := OArray [CRef 1%positive];
     3%positive := OFrame [("tags", 2%positive)] ]}.

Definition tagged_world : World := mkWorld tagged_objects files [].

(** A name of 300 characters. *)
Definition long_name : string :=
  fold_right (fun _ s => String "a" s) EmptyString (seq 0 300).

(** The name [file.csv] behind 2100 dot segments: 4208 characters. *)
Definition roundabout_name : string :=
  fold_right (fun _ s => String "." (String "/" s)) "file.csv" (seq 0 2100).

(** A world with a directory that cannot be searched and a symbolic link
    that loops. *)
Definition guarded_files : gmap string Entry :=
  {[ "file.csv" := EFile true people_csv;
     "vault" := ELockedDir;
     "loop" := ELinkLoop ]}.

Definition guarded_world : World := mkWorld objects guarded_files [].

End Sample.

(* ===================================================================== *)
(** * Part II: lemmas and theorems                                        *)
(* ===================================================================== *)

(** ** The model at work *)

Example normalize_examples :
  Pathlib.normalize "file.csv" = "file.csv"
  ∧ Pathlib.normalize ".//data/./file.csv" = "data/file.csv"
  ∧ Pathlib.normalize "/tmp/" = "/tmp"
  ∧ Pathlib.normalize "//host/share" = "//host/share"
  ∧ Pathlib.normalize "///tmp" = "/tmp"
  ∧ Pathlib.normalize EmptyString = ".".
Proof. by vm_compute. Qed.

(** A quoted field holds a comma, a doubled quote and a line break. *)
Example tokenize_quoted_field :
  Csv.tokenize
    (Csv.render_lines true false
       [[Csv.Plain "a"; Csv.Plain "b"];
        [Csv.Quoted ("x,y" +:+ String Text.dquote (String Text.LF "z")); Csv.Plain EmptyString]])
  = Ret [["a"; "b"]; ["x,y" +:+ String Text.dquote (String Text.LF "z"); EmptyString]].
Proof. by vm_compute. Qed.

Example parse_people : Csv.parse_csv Sample.people_csv = Ret Sample.people.
Proof. by vm_compute. Qed.

(** An integer column is numeric, any other column is text; a short
    record leaves its last cell missing; empty lines are skipped. *)
Example parse_mixed_columns :
  Csv.parse_csv (Sample.line "n,v" +:+ Sample.line "-7,1" +:+ Sample.line EmptyString
                 +:+ Sample.line "+12,x" +:+ "3")
  = Ret [("n", [CInt (-7); CInt 12; CInt 3]); ("v", [CStr "1"; CStr "x"; CMissing])].
Proof. by vm_compute. Qed.

Example load_people :
  observe (load_csv (VStr "file.csv") Sample.world) = ObsTable Sample.people
  ∧ fs_log (snd (load_csv (VStr "file.csv") Sample.world))
    = [EvStat "file.csv"; EvOpen "file.csv"].
Proof. by vm_compute. Qed.

(** ** Text *)

Section text_facts.
Import Text.

Lemma append_nil_l (s : string) : EmptyString +:+ s = s.
Proof. reflexivity. Qed.

Lemma append_cons (c : ascii) (s t : string) : String c s +:+ t = String c (s +:+ t).
Proof. reflexivity. Qed.

Lemma append_empty_r (s : string) : s +:+ EmptyString = s.
Proof. induction s as [|c s IH]; [done|]. by rewrite append_cons, IH. Qed.

Lemma append_assoc (a b c : string) : (a +:+ b) +:+ c = a +:+ (b +:+ c).
Proof. induction a as [|x a IH]; [done|]. by rewrite !append_cons, IH. Qed.

Lemma starts_with_append (n b : string) : starts_with n (n +:+ b) = true.
Proof.
  induction n as [|c n IH]; [done|]. rewrite append_cons. simpl.
  rewrite bool_decide_eq_true_2 by done. exact IH.
Qed.

Lemma includes_unfold (n h : string) :
  includes n h =
  starts_with n h || match h with
                     | EmptyString => false
                     | String _ h' => includes n h'
                     end.
Proof. destruct h; reflexivity. Qed.

Lemma includes_here (n b : string) : includes n (n +:+ b) = true.
Proof. rewrite includes_unfold, starts_with_append. done. Qed.

Lemma includes_later (n a b : string) :
  includes n b = true → includes n (a +:+ b) = true.
Proof.
  intros H. induction a as [|c a IH]; [done|].
  rewrite append_cons, includes_unfold, IH. apply orb_true_r.
Qed.

(** A text occurs in whatever is written around it. *)
Lemma includes_infix (n a b : string) : includes n (a +:+ n +:+ b) = true.
Proof. apply includes_later, includes_here. Qed.

Lemma includes_suffix (n a : string) : includes n (a +:+ n) = true.
Proof.
  rewrite <- (append_empty_r n) at 2. apply includes_infix.
Qed.

Lemma chars_app (s1 s2 : string) : chars (s1 +:+ s2) = chars s1 ++ chars s2.
Proof. induction s1 as [|c s1 IH]; [done|]. rewrite append_cons. simpl. by rewrite IH. Qed.

End text_facts.

(** ** The heap and the monad *)

Section monad_facts.
Context {A B : Type}.

Lemma bind_Ret (m : Py A) (f : A → Py B) w a w' :
  m w = (Ret a, w') → bind m f w = f a w'.
Proof. unfold bind. by intros ->. Qed.

Lemma bind_Raise (m : Py A) (f : A → Py B) w e w' :
  m w = (Raise e, w') → bind m f w = (Raise e, w').
Proof. unfold bind. by intros ->. Qed.

Lemma bind_assoc {C} (m : Py A) (f : A → Py B) (g : B → Py C) w :
  bind (bind m f) g w = bind m (fun a => bind (f a) g) w.
Proof. unfold bind. by destruct (m w) as [[a|e] w']. Qed.

End monad_facts.

Section heap_facts.

Lemma fresh_not_allocated (h : gmap addr Obj) : h !! fresh (dom h) = None.
Proof. apply not_elem_of_dom, is_fresh. Qed.

Lemma alloc_spec (o : Obj) (w : World) :
  ∃ a, alloc o w = (Ret a, mkWorld (<[a:=o]> (heap w)) (fs w) (fs_log w))
       ∧ heap w !! a = None.
Proof. eexists. split; [reflexivity | apply fresh_not_allocated]. Qed.

End heap_facts.

Section fs_untouched_facts.

Lemma fs_untouched_ret {A} (a : A) : fs_untouched (ret a).
Proof. done. Qed.

Lemma fs_untouched_raise {A} k msg : fs_untouched (@raise A k msg).
Proof. done. Qed.

Lemma fs_untouched_lift {A} (o : Outcome A) : fs_untouched (lift o).
Proof. done. Qed.

Lemma fs_untouched_bind {A B} (m : Py A) (f : A → Py B) :
  fs_untouched m → (∀ a, fs_untouched (f a)) → fs_untouched (bind m f).
Proof.
  intros Hm Hf w. unfold bind. specialize (Hm w).
  destruct (m w) as [[a|e] w1]; simpl in *; [|done].
  destruct (Hf a w1) as [-> ->]. done.
Qed.

Lemma fs_untouched_alloc o : fs_untouched (alloc o).
Proof. done. Qed.

Lemma fs_untouched_store a o : fs_untouched (store a o).
Proof. done. Qed.

Lemma fs_untouched_deref_frame a : fs_untouched (deref_frame a).
Proof. intros w. unfold deref_frame. by repeat case_match. Qed.

Lemma fs_untouched_deref_array a : fs_untouched (deref_array a).
Proof. intros w. unfold deref_array. by repeat case_match. Qed.

Lemma fs_untouched_copy_columns cols : fs_untouched (Pandas.copy_columns cols).
Proof.
  induction cols as [|[name b] rest IH]; simpl; [apply fs_untouched_ret|].
  apply fs_untouched_bind; [apply fs_untouched_deref_array | intros data].
  apply fs_untouched_bind; [apply fs_untouched_alloc | intros b'].
  apply fs_untouched_bind; [exact IH | intros rest']. apply fs_untouched_ret.
Qed.

Lemma fs_untouched_copy deep v : fs_untouched (Pandas.DataFrame_copy deep v).
Proof.
  destruct v; simpl; try apply fs_untouched_raise.
  apply fs_untouched_bind; [apply fs_untouched_deref_frame | intros cols].
  apply fs_untouched_bind.
  - destruct deep; [apply fs_untouched_copy_columns | apply fs_untouched_ret].
  - intros cols'. apply fs_untouched_bind; [apply fs_untouched_alloc | intros r].
    apply fs_untouched_ret.
Qed.

End fs_untouched_facts.

(** C7.  A DataFrame argument is answered by the first branch, which is
    [source.copy()] and nothing else: the file system is not consulted (the
    log of file-system calls is as it was) and not changed. *)
Theorem table_input_touches_no_file (a : addr) (w : World) :
  load_csv (VDataFrame a) w = Pandas.DataFrame_copy true (VDataFrame a) w
  ∧ fs_log (snd (load_csv (VDataFrame a) w)) = fs_log w
  ∧ fs (snd (load_csv (VDataFrame a) w)) = fs w.
Proof.
  split; [reflexivity|].
  destruct (fs_untouched_copy true (VDataFrame a) w) as [Hfs Hlog].
  split; [exact Hlog | exact Hfs].
Qed.

(** C2.  A value that is neither a DataFrame nor a [str], [bytes] or
    path-like object makes [load_csv] raise [TypeError], in the world as it
    was, with a message that ends with the runtime type of the value. *)
Theorem invalid_source_type_rejected (v : PyValue) (w : World) :
  isinstance_DataFrame v = false →
  isinstance_str_bytes_PathLike v = false →
  ∃ msg,
    load_csv v w = (Raise (mkExn TypeError msg), w)
    ∧ Text.includes (type_repr v) msg = true.
Proof.
  intros Hdf Hpath. unfold load_csv. rewrite Hdf, Hpath. simpl.
  eexists. split; [reflexivity|]. apply includes_suffix.
Qed.

Lemma invalid_source_type_rejected_witness :
  (∃ msg,
     load_csv (VInt 5) Sample.world = (Raise (mkExn TypeError msg), Sample.world)
     ∧ Text.includes "<class 'int'>" msg = true)
  ∧ (∃ msg,
       load_csv VNone Sample.world = (Raise (mkExn TypeError msg), Sample.world)
       ∧ Text.includes "<class 'NoneType'>" msg = true)
  ∧ (∃ msg,
       load_csv (VList [VStr "file.csv"]) Sample.world
         = (Raise (mkExn TypeError msg), Sample.world)
       ∧ Text.includes "<class 'list'>" msg = true)
  ∧ (∃ msg,
       load_csv (VObj "__main__.Thing" "a thing" None) Sample.world
         = (Raise (mkExn TypeError msg), Sample.world)
       ∧ Text.includes "<class '__main__.Thing'>" msg = true).
Proof.
  split; [exact (invalid_source_type_rejected (VInt 5) Sample.world eq_refl eq_refl)|].
  split; [exact (invalid_source_type_rejected VNone Sample.world eq_refl eq_refl)|].
  split;
    [exact (invalid_source_type_rejected (VList [VStr "file.csv"]) Sample.world
              eq_refl eq_refl)|].
  exact (invalid_source_type_rejected (VObj "__main__.Thing" "a thing" None) Sample.world
           eq_refl eq_refl).
Defined.

(** C5 (what the code does).  A [bytes] argument passes the type gate, and
    then [pathlib.Path] refuses it: [load_csv] raises [TypeError], the class
    of the invalid-type error, before any existence check and whatever the
    file system holds.  So for the existing file [file.csv] the text name
    gives the table and the same name as bytes gives [TypeError]. *)
Theorem bytes_source_raises_type_error :
  (∀ (b : string) (w : World),
      isinstance_str_bytes_PathLike (VBytes b) = true
      ∧ ∃ msg, load_csv (VBytes b) w = (Raise (mkExn TypeError msg), w))
  ∧ observe (load_csv (VStr "file.csv") Sample.world) = ObsTable Sample.people
  ∧ observe_kind (load_csv (VBytes "file.csv") Sample.world)
    = ObsError TypeError EmptyString
  ∧ fs_log (snd (load_csv (VBytes "file.csv") Sample.world)) = [].
Proof.
  split.
  - intros b w. split; [reflexivity|]. eexists. reflexivity.
  - by vm_compute.
Qed.

(** ** pathlib: normal forms *)

Section pathlib_facts.
Import Text Pathlib.

Lemma sep_free_cons sep c w :
  sep_free sep (String c w) ↔ c ≠ sep ∧ sep_free sep w.
Proof.
  unfold sep_free. simpl. rewrite not_elem_of_cons.
  split; intros [H1 H2]; split; auto.
Qed.

Lemma split_on_nonempty sep s : split_on sep s ≠ [].
Proof.
  destruct s as [|c s]; simpl; [done|].
  case_decide; [done|]. by destruct (split_on sep s).
Qed.

Lemma split_on_sep_free sep s : Forall (sep_free sep) (split_on sep s).
Proof.
  induction s as [|c s IH]; simpl.
  - repeat constructor. unfold sep_free. simpl. apply not_elem_of_nil.
  - case_decide as Hc.
    + constructor; [|done]. unfold sep_free. simpl. apply not_elem_of_nil.
    + destruct (split_on sep s) as [|w ws] eqn:E; [by apply split_on_nonempty in E|].
      inversion IH; subst. constructor; [|done].
      apply sep_free_cons. done.
Qed.

Lemma split_on_sep_cons sep s :
  split_on sep (String sep s) = EmptyString :: split_on sep s.
Proof. simpl. by rewrite decide_True. Qed.

Lemma split_on_word sep w : sep_free sep w → split_on sep w = [w].
Proof.
  induction w as [|c w IH]; intros Hw; simpl; [done|].
  apply sep_free_cons in Hw as [Hc Hw]. rewrite decide_False by done.
  by rewrite IH.
Qed.

Lemma split_on_word_sep sep w rest :
  sep_free sep w →
  split_on sep (w +:+ String sep rest) = w :: split_on sep rest.
Proof.
  induction w as [|c w IH]; intros Hw.
  - rewrite append_nil_l. simpl. by rewrite decide_True.
  - apply sep_free_cons in Hw as [Hc Hw]. rewrite append_cons. simpl.
    rewrite decide_False by done. by rewrite IH.
Qed.

Lemma split_on_join sep l :
  l ≠ [] → Forall (sep_free sep) l →
  split_on sep (join (String sep EmptyString) l) = l.
Proof.
  induction l as [|w l IH]; intros Hne Hl; [done|].
  inversion Hl as [|? ? Hw Hl']; subst.
  destruct l as [|w2 l].
  - simpl. by apply split_on_word.
  - change (join (String sep EmptyString) (w :: w2 :: l))
      with (w +:+ String sep EmptyString +:+ join (String sep EmptyString) (w2 :: l)).
    rewrite append_cons, append_nil_l.
    rewrite split_on_word_sep by done. by rewrite IH.
Qed.

(** Kept segments are not empty. *)
Lemma keep_segment_cons seg :
  keep_segment seg = true → ∃ c w, seg = String c w.
Proof. destruct seg; [done | eauto]. Qed.

Lemma path_parts_kept s :
  Forall (fun seg => keep_segment seg = true ∧ sep_free slash seg) (path_parts s).
Proof.
  unfold path_parts. apply Forall_forall. intros seg Hin.
  apply list_elem_of_filter in Hin as [Hk Hin]. split; [done|].
  pose proof (split_on_sep_free slash s) as H.
  rewrite Forall_forall in H. by apply H.
Qed.

Lemma path_root_cases s :
  path_root s = EmptyString ∨ path_root s = "/" ∨ path_root s = "//".
Proof.
  unfold path_root. repeat case_match; auto.
Qed.

Lemma path_root_no_slash c rest :
  c ≠ slash → path_root (String c rest) = EmptyString.
Proof.
  intros Hc. unfold path_root. destruct rest as [|b [|d rest]];
    by rewrite decide_False.
Qed.

(** The text of a non-empty list of kept segments starts with a
    character that is not a slash. *)
Lemma join_parts_head ps :
  ps ≠ [] →
  Forall (fun seg => keep_segment seg = true ∧ sep_free slash seg) ps →
  ∃ c rest, join "/" ps = String c rest ∧ c ≠ slash.
Proof.
  intros Hne Hps. destruct ps as [|p ps]; [done|].
  inversion Hps as [|? ? [Hk Hf] _]; subst.
  apply keep_segment_cons in Hk as (c & w & ->).
  apply sep_free_cons in Hf as [Hc _].
  destruct ps as [|p2 ps].
  - exists c, w. done.
  - exists c. eexists. split; [|done].
    change (join "/" (String c w :: p2 :: ps))
      with (String c w +:+ "/" +:+ join "/" (p2 :: ps)).
    rewrite append_cons. reflexivity.
Qed.

Lemma path_parts_join r ps :
  (r = EmptyString ∨ r = "/" ∨ r = "//") →
  Forall (fun seg => keep_segment seg = true ∧ sep_free slash seg) ps →
  path_parts (r +:+ join "/" ps) = ps.
Proof.
  intros Hr Hps. unfold path_parts.
  assert (Hfilter : filter (fun seg => keep_segment seg = true) ps = ps).
  { clear Hr. induction Hps as [|p ps [Hk _] _ IH]; [done|].
    rewrite filter_cons_True by done. by rewrite IH. }
  destruct ps as [|p ps].
  - destruct Hr as [-> | [-> | ->]]; reflexivity.
  - assert (Hsplit : split_on slash (join "/" (p :: ps)) = p :: ps).
    { apply split_on_join; [done|]. eapply Forall_impl; [exact Hps|]. by intros ? [_ ?]. }
    destruct Hr as [-> | [-> | ->]].
    + rewrite append_nil_l, Hsplit. exact Hfilter.
    + rewrite append_cons, append_nil_l, (split_on_sep_cons slash), Hsplit.
      rewrite filter_cons_False by done. exact Hfilter.
    + rewrite !append_cons, append_nil_l, !(split_on_sep_cons slash), Hsplit.
      rewrite !filter_cons_False by done. exact Hfilter.
Qed.

Lemma path_root_join r ps :
  (r = EmptyString ∨ r = "/" ∨ r = "//") →
  ps ≠ [] →
  Forall (fun seg => keep_segment seg = true ∧ sep_free slash seg) ps →
  path_root (r +:+ join "/" ps) = r.
Proof.
  intros Hr Hne Hps.
  destruct (join_parts_head ps Hne Hps) as (c & rest & -> & Hc).
  destruct Hr as [-> | [-> | ->]].
  - rewrite append_nil_l. by apply path_root_no_slash.
  - rewrite append_cons, append_nil_l. unfold path_root.
    destruct rest; rewrite decide_True by done; by rewrite decide_False.
  - rewrite !append_cons, append_nil_l. unfold path_root.
    rewrite !decide_True by done. by rewrite decide_False.
Qed.

Lemma normalize_cases s :
  (path_root s = EmptyString ∧ path_parts s = [] ∧ normalize s = ".")
  ∨ ((path_root s ≠ EmptyString ∨ path_parts s ≠ [])
     ∧ normalize s = path_root s +:+ join "/" (path_parts s)).
Proof.
  unfold normalize.
  destruct (path_root s) as [|a r]; destruct (path_parts s) as [|p ps]; auto.
Qed.

(** [Path(str(Path(s))) == Path(s)]. *)
Lemma normalize_idempotent s : normalize (normalize s) = normalize s.
Proof.
  pose proof (path_root_cases s) as Hr.
  pose proof (path_parts_kept s) as Hps.
  destruct (normalize_cases s) as [(_ & _ & ->) | [Hne ->]]; [reflexivity|].
  destruct (path_parts s) as [|p ps] eqn:Eps.
  - destruct Hr as [E | [-> | ->]]; [|reflexivity..].
    destruct Hne as [Hne|Hne]; done.
  - unfold normalize. rewrite path_parts_join, path_root_join by done.
    by destruct (path_root s).
Qed.

Lemma normalize_not_empty s : normalize s ≠ EmptyString.
Proof.
  unfold normalize.
  pose proof (path_parts_kept s) as Hps.
  destruct (path_parts s) as [|p ps] eqn:Eps.
  - destruct (path_root_cases s) as [-> | [-> | ->]]; done.
  - destruct (join_parts_head (p :: ps)) as (c & rest & E & _); [done..|].
    destruct (path_root s) as [|a r]; rewrite E; [done|].
    rewrite append_cons. done.
Qed.

Lemma last_cons_nonempty {A} (x : A) (l : list A) : l ≠ [] → last (x :: l) = last l.
Proof. by destruct l. Qed.

(** The components of a normal form are empty, a dot, or segments of the
    name it comes from. *)
Lemma split_on_normalize s seg :
  seg ∈ split_on slash (normalize s) →
  seg = EmptyString ∨ seg = "." ∨ seg ∈ split_on slash s.
Proof.
  pose proof (path_root_cases s) as Hr.
  pose proof (path_parts_kept s) as Hps.
  destruct (normalize_cases s) as [(_ & _ & ->) | [Hne ->]].
  { intros H. apply list_elem_of_singleton in H. auto. }
  destruct (path_parts s) as [|p ps] eqn:Eps.
  - destruct Hr as [E | [-> | ->]].
    + destruct Hne as [Hne|Hne]; done.
    + intros H. left. simpl in H.
      repeat (apply elem_of_cons in H as [->|H]; [done|]). by apply elem_of_nil in H.
    + intros H. left. simpl in H.
      repeat (apply elem_of_cons in H as [->|H]; [done|]). by apply elem_of_nil in H.
  - assert (Hsplit : split_on slash (join "/" (p :: ps)) = p :: ps).
    { apply split_on_join; [done|]. eapply Forall_impl; [exact Hps|]. by intros ? [_ ?]. }
    assert (Hin : ∀ x, x ∈ p :: ps → x ∈ split_on slash s).
    { intros x Hx. rewrite <- Eps in Hx. unfold path_parts in Hx.
      by apply list_elem_of_filter in Hx as [_ ?]. }
    destruct Hr as [-> | [-> | ->]].
    + rewrite append_nil_l, Hsplit. auto.
    + rewrite append_cons, append_nil_l, (split_on_sep_cons slash), Hsplit.
      intros H. apply elem_of_cons in H as [->|H]; auto.
    + rewrite !append_cons, append_nil_l, !(split_on_sep_cons slash), Hsplit.
      intros H. apply elem_of_cons in H as [->|H]; [auto|].
      apply elem_of_cons in H as [->|H]; auto.
Qed.

End pathlib_facts.

(** ** The operating system *)

Section os_facts.
Import Text Pathlib Os.

Lemma path_parts_normalize s : path_parts (normalize s) = path_parts s.
Proof.
  destruct (normalize_cases s) as [(_ & -> & ->) | [_ ->]]; [reflexivity|].
  apply path_parts_join; [apply path_root_cases | apply path_parts_kept].
Qed.

Lemma path_root_normalize s : path_root (normalize s) = path_root s.
Proof.
  pose proof (path_root_cases s) as Hr.
  pose proof (path_parts_kept s) as Hps.
  destruct (normalize_cases s) as [(-> & _ & ->) | [Hne ->]]; [reflexivity|].
  destruct (path_parts s) as [|p ps] eqn:Eps.
  - destruct Hr as [E | [-> | ->]]; [|reflexivity..].
    destruct Hne as [Hne|Hne]; done.
  - by apply path_root_join.
Qed.

Lemma keep_segment_false seg :
  keep_segment seg = false → seg = EmptyString ∨ seg = ".".
Proof.
  unfold keep_segment. intros H.
  destruct (decide (seg = EmptyString)) as [|H1]; [by left|].
  destruct (decide (seg = ".")) as [|H2]; [by right|].
  by rewrite !bool_decide_eq_false_2 in H.
Qed.

(** The components of a normal form are those of the name it comes from
    that count, after components that do not. *)
Lemma split_on_normalize_shape s :
  ∃ pre, split_on slash (normalize s) = pre ++ path_parts s
         ∧ Forall (fun seg => keep_segment seg = false) pre.
Proof.
  pose proof (path_root_cases s) as Hr.
  pose proof (path_parts_kept s) as Hps.
  destruct (normalize_cases s) as [(_ & -> & ->) | [Hne ->]].
  { exists ["."]. split; [reflexivity|]. by repeat constructor. }
  destruct (path_parts s) as [|p ps] eqn:Eps.
  - destruct Hr as [E | [-> | ->]].
    + destruct Hne as [Hne|Hne]; done.
    + exists [EmptyString; EmptyString]. split; [reflexivity|]. by repeat constructor.
    + exists [EmptyString; EmptyString; EmptyString].
      split; [reflexivity|]. by repeat constructor.
  - assert (Hsplit : split_on slash (join "/" (p :: ps)) = p :: ps).
    { apply split_on_join; [done|]. eapply Forall_impl; [exact Hps|]. by intros ? [_ ?]. }
    destruct Hr as [-> | [-> | ->]].
    + exists []. by rewrite append_nil_l, Hsplit.
    + exists [EmptyString].
      rewrite append_cons, append_nil_l, (split_on_sep_cons slash), Hsplit.
      split; [reflexivity|]. by repeat constructor.
    + exists [EmptyString; EmptyString].
      rewrite !append_cons, append_nil_l, !(split_on_sep_cons slash), Hsplit.
      split; [reflexivity|]. by repeat constructor.
Qed.

(** A character that is no separator is in a string when it is in one of
    its pieces. *)
Lemma chars_split_on c sep s :
  c ≠ sep →
  c ∈ chars s ↔ ∃ seg, seg ∈ split_on sep s ∧ c ∈ chars seg.
Proof.
  intros Hc. induction s as [|a s IH]; simpl.
  - split; [intros H; by apply elem_of_nil in H|].
    intros (seg & Hin & Hseg). apply list_elem_of_singleton in Hin as ->.
    by apply elem_of_nil in Hseg.
  - case_decide as Ha.
    + subst a. rewrite elem_of_cons, IH. split.
      * intros [->|(seg & Hin & Hseg)]; [done|]. exists seg. split; [by right | done].
      * intros (seg & Hin & Hseg). right.
        apply elem_of_cons in Hin as [->|Hin]; [by apply elem_of_nil in Hseg|]. eauto.
    + destruct (split_on sep s) as [|w ws] eqn:E; [by apply split_on_nonempty in E|].
      rewrite elem_of_cons, IH. split.
      * intros [->|(seg & Hin & Hseg)].
        -- exists (String a w). split; [left | simpl; left].
        -- apply elem_of_cons in Hin as [->|Hin].
           ++ exists (String a w). split; [left | simpl; by right].
           ++ exists seg. split; [by right | done].
      * intros (seg & Hin & Hseg). apply elem_of_cons in Hin as [->|Hin].
        -- simpl in Hseg. apply elem_of_cons in Hseg as [->|Hseg]; [by left|].
           right. exists w. split; [left | done].
        -- right. exists seg. split; [by right | done].
Qed.

(** A name holds a null byte when its normal form does. *)
Lemma has_null_normalize s : has_null (normalize s) = has_null s.
Proof.
  unfold has_null. apply bool_decide_ext.
  assert (Hn : NUL ≠ slash) by done.
  rewrite !(chars_split_on NUL slash _ Hn). split.
  - intros (seg & Hin & Hseg).
    destruct (split_on_normalize s seg Hin) as [-> | [-> | Hs]].
    + by apply elem_of_nil in Hseg.
    + simpl in Hseg. by apply list_elem_of_singleton in Hseg.
    + eauto.
  - intros (seg & Hin & Hseg). exists seg. split; [|done].
    assert (Hk : keep_segment seg = true).
    { destruct seg as [|c [|c' r]].
      - by apply elem_of_nil in Hseg.
      - simpl in Hseg. by apply list_elem_of_singleton in Hseg as <-.
      - unfold keep_segment. by rewrite !bool_decide_eq_false_2. }
    assert (Hp : seg ∈ path_parts (normalize s)).
    { rewrite path_parts_normalize. by apply list_elem_of_filter. }
    by apply list_elem_of_filter in Hp as [_ ?].
Qed.

(** *** Lengths: a normal form is no longer than the name *)

Lemma length_app (a b : string) :
  String.length (a +:+ b) = String.length a + String.length b.
Proof. induction a as [|c a IH]; [done|]. rewrite append_cons. simpl. by rewrite IH. Qed.

Lemma weight_split_on sep s :
  sum_list_with (fun seg => S (String.length seg)) (split_on sep s) = S (String.length s).
Proof.
  induction s as [|c s IH]; simpl; [done|]. case_decide.
  - simpl. by rewrite IH.
  - destruct (split_on sep s) as [|w ws] eqn:E; [by apply split_on_nonempty in E|].
    simpl in *. lia.
Qed.

Lemma weight_filter (P : string → Prop) `{!∀ x, Decision (P x)} (l : list string) :
  sum_list_with (fun seg => S (String.length seg)) (filter P l)
  ≤ sum_list_with (fun seg => S (String.length seg)) l.
Proof.
  induction l as [|x l IH]; [done|]. rewrite filter_cons.
  case_decide; simpl; lia.
Qed.

Lemma weight_join l :
  l ≠ [] →
  S (String.length (join "/" l)) = sum_list_with (fun seg => S (String.length seg)) l.
Proof.
  induction l as [|w l IH]; [done|]. intros _. destruct l as [|w2 l]; [simpl; lia|].
  change (join "/" (w :: w2 :: l)) with (w +:+ "/" +:+ join "/" (w2 :: l)).
  rewrite !length_app. specialize (IH ltac:(done)).
  change (String.length "/") with 1.
  change (sum_list_with (fun seg => S (String.length seg)) (w :: w2 :: l))
    with (S (String.length w)
          + sum_list_with (fun seg => S (String.length seg)) (w2 :: l)).
  lia.
Qed.

Lemma length_join_parts s : String.length (join "/" (path_parts s)) ≤ String.length s.
Proof.
  pose proof (weight_filter (fun seg => keep_segment seg = true) (split_on slash s)) as Hf.
  rewrite weight_split_on in Hf. fold (path_parts s) in Hf.
  destruct (path_parts s) as [|p ps] eqn:E; [simpl; lia|].
  pose proof (weight_join (p :: ps) ltac:(done)). lia.
Qed.

Lemma path_parts_slash s : path_parts (String slash s) = path_parts s.
Proof. unfold path_parts. rewrite split_on_sep_cons. by rewrite filter_cons_False. Qed.

Lemma path_root_one_slash s : path_root s = "/" → ∃ s', s = String slash s'.
Proof.
  destruct s as [|a [|b [|c r]]]; simpl; repeat case_decide; intros; subst; try done; eauto.
Qed.

Lemma path_root_two_slashes s :
  path_root s = "//" → ∃ s', s = String slash (String slash s').
Proof.
  destruct s as [|a [|b [|c r]]]; simpl; repeat case_decide; intros; subst; try done; eauto.
Qed.

Lemma length_normalize s :
  s ≠ EmptyString → String.length (normalize s) ≤ String.length s.
Proof.
  intros Hs. destruct (normalize_cases s) as [(_ & _ & ->) | [_ ->]].
  - destruct s; [done|]. simpl. lia.
  - rewrite length_app. destruct (path_root_cases s) as [E | [E | E]]; rewrite E.
    + apply length_join_parts.
    + destruct (path_root_one_slash s E) as [s' ->]. rewrite path_parts_slash.
      pose proof (length_join_parts s'). simpl. lia.
    + destruct (path_root_two_slashes s E) as [s' ->]. rewrite !path_parts_slash.
      pose proof (length_join_parts s'). simpl. lia.
Qed.

(** *** The walk *)

Lemma sys_root_normalize s : sys_root (normalize s) = sys_root s.
Proof. unfold sys_root. by rewrite path_root_normalize. Qed.

(** From a directory that may be searched, components that do not count
    change nothing. *)
Lemma walk_skip files root seen pre segs :
  Forall (fun seg => keep_segment seg = false) pre →
  walk files root seen EDir (pre ++ segs) = walk files root seen EDir segs.
Proof.
  induction 1 as [|seg pre Hseg _ IH]; [done|]. simpl.
  case_decide; [exact IH|].
  apply keep_segment_false in Hseg as [->| ->]; [done|].
  by rewrite decide_True.
Qed.

(** A walk that arrives, arrives at the same entry without the
    components that do not count. *)
Lemma walk_filter files root segs : ∀ seen cur e,
  walk files root seen cur segs = inr e →
  walk files root seen cur (filter (fun seg => keep_segment seg = true) segs) = inr e.
Proof.
  induction segs as [|seg rest IH]; intros seen cur e; [done|].
  rewrite filter_cons. simpl.
  destruct (decide (seg = EmptyString)) as [->|Hne].
  - rewrite decide_False by done. destruct cur; try done; apply IH.
  - destruct (enter cur) as [err|] eqn:Een; [done|].
    destruct (decide (seg = ".")) as [->|Hdot].
    + rewrite decide_False by done. apply IH.
    + rewrite decide_True
        by (unfold keep_segment; by rewrite !bool_decide_eq_false_2).
      simpl. rewrite decide_False by done. rewrite Een, decide_False by done.
      destruct (NAME_MAX <? String.length seg); [done|].
      destruct (files !! child root seen seg) as [[r c| | |]|]; try done; apply IH.
Qed.

(** Below an entry that cannot be entered, only components that do not
    count can follow. *)
Lemma walk_blocked files root segs : ∀ seen cur en,
  enter cur ≠ None →
  walk files root seen cur (filter (fun seg => keep_segment seg = true) segs) = inr en →
  Forall (fun seg => keep_segment seg = false) segs.
Proof.
  induction segs as [|seg rest IH]; intros seen cur en Hcur; [constructor|].
  rewrite filter_cons. case_decide as Hk.
  - simpl. rewrite decide_False by (by destruct seg).
    by destruct (enter cur).
  - intros H. constructor; [by destruct (keep_segment seg) | by apply (IH seen cur en)].
Qed.

Lemma last_dropped (segs : list string) :
  segs ≠ [] → Forall (fun seg => keep_segment seg = false) segs →
  ∃ seg, last segs = Some seg ∧ keep_segment seg = false.
Proof.
  intros Hne H. destruct (last segs) as [seg|] eqn:El; [|by apply last_None in El].
  exists seg. split; [done|].
  apply last_Some in El as [l' ->]. apply Forall_app in H as [_ H].
  by inversion H.
Qed.

(** A walk that fails where the walk without the components that do not
    count arrives: the last component does not count, and the entry
    reached is no directory that may be searched. *)
Lemma walk_dropped_last files root segs : ∀ seen cur e en,
  cur ≠ ELinkLoop →
  walk files root seen cur segs = inl e →
  walk files root seen cur (filter (fun seg => keep_segment seg = true) segs) = inr en →
  (∃ seg, last segs = Some seg ∧ keep_segment seg = false)
  ∧ (e = ENOTDIR ∨ e = EACCES).
Proof.
  induction segs as [|seg rest IH]; intros seen cur e en Hcur; [done|].
  assert (Hlast : ∀ e' en',
            walk files root seen cur rest = inl e' →
            walk files root seen cur
              (filter (fun seg => keep_segment seg = true) rest) = inr en' →
            (∃ x, last (seg :: rest) = Some x ∧ keep_segment x = false)
            ∧ (e' = ENOTDIR ∨ e' = EACCES)).
  { intros e' en' H1 H2. destruct (IH seen cur e' en' Hcur H1 H2) as [(x & Hx & Hk) He].
    split; [|done]. exists x. split; [|done].
    destruct rest; [done|]. by rewrite last_cons_nonempty. }
  assert (Hblocked : keep_segment seg = false → enter cur ≠ None → ∀ en',
            walk files root seen cur
              (filter (fun seg => keep_segment seg = true) rest) = inr en' →
            ∃ x, last (seg :: rest) = Some x ∧ keep_segment x = false).
  { intros Hk Hen en' H2. apply last_dropped; [done|].
    constructor; [done|]. by apply (walk_blocked files root rest seen cur en'). }
  rewrite filter_cons. simpl.
  destruct (decide (seg = EmptyString)) as [->|Hne].
  - rewrite decide_False by done.
    destruct cur as [r c| | |]; try done; try apply Hlast.
    intros [= <-] H2. split; [|by left]. exact (Hblocked eq_refl ltac:(done) en H2).
  - destruct (enter cur) as [err|] eqn:Een.
    + intros [= <-]. destruct (decide (seg = ".")) as [->|Hdot].
      * rewrite decide_False by done. intros H2. split.
        -- by apply (Hblocked eq_refl) with (en' := en).
        -- destruct cur; simpl in Een; try done; injection Een as <-; auto.
      * rewrite decide_True
          by (unfold keep_segment; by rewrite !bool_decide_eq_false_2).
        simpl. rewrite decide_False by done. by rewrite Een.
    + destruct (decide (seg = ".")) as [->|Hdot].
      * rewrite decide_False by done. apply Hlast.
      * rewrite decide_True
          by (unfold keep_segment; by rewrite !bool_decide_eq_false_2).
        simpl. rewrite decide_False by done. rewrite Een, decide_False by done.
        destruct (NAME_MAX <? String.length seg); [done|].
        destruct (files !! child root seen seg) as [[r c| | |]|]; try done;
          intros H1 H2;
          (pose proof (fun Hc => IH _ _ e en Hc H1 H2) as IH';
           destruct IH' as [(x & Hx & Hk) He]; [done|];
           split; [|done]; exists x; split; [|done];
           destruct rest; [done|]; by rewrite last_cons_nonempty).
Qed.

(** Resolution of a normal form: the walk over the components that
    count. *)
Lemma resolve_normal_form files s :
  resolve files (normalize s) =
  if has_null s then inl EMBEDDED_NULL
  else if PATH_MAX <=? String.length (normalize s) then inl ENAMETOOLONG
  else walk files (sys_root s) [] EDir (path_parts s).
Proof.
  unfold resolve. rewrite has_null_normalize, sys_root_normalize.
  rewrite decide_False by apply normalize_not_empty.
  destruct (split_on_normalize_shape s) as (pre & -> & Hpre).
  by rewrite walk_skip.
Qed.

(** A name that resolves, resolves in normal form too, to the same
    entry: this is why the existence check on [Path(source)] passes
    whenever [source] itself names something. *)
Lemma resolve_normalize files s e :
  resolve files s = inr e → resolve files (normalize s) = inr e.
Proof.
  rewrite resolve_normal_form. unfold resolve.
  destruct (has_null s); [done|].
  destruct (decide (s = EmptyString)) as [|Hs]; [done|].
  destruct (PATH_MAX <=? String.length s) eqn:Hl; [done|].
  apply Nat.leb_gt in Hl. pose proof (length_normalize s Hs) as Hn.
  rewrite (proj2 (Nat.leb_gt _ _)) by lia.
  apply walk_filter.
Qed.

(** A name that does not resolve while its normal form does is empty, or
    too long, or ends with a component that does not count, after an
    entry that is no directory that may be searched. *)
Lemma resolve_fails_after_normal_form files s e en :
  resolve files (normalize s) = inr en →
  resolve files s = inl e →
  s = EmptyString ∧ e = ENOENT
  ∨ PATH_MAX ≤ String.length s ∧ e = ENAMETOOLONG
  ∨ demands_directory s = true ∧ (e = ENOTDIR ∨ e = EACCES).
Proof.
  rewrite resolve_normal_form. unfold resolve.
  destruct (has_null s); [done|].
  destruct (decide (s = EmptyString)) as [->|Hs]; [intros _ [= <-]; by left|].
  destruct (PATH_MAX <=? String.length s) eqn:Hl.
  { intros _ [= <-]. right. left. split; [by apply Nat.leb_le | done]. }
  destruct (PATH_MAX <=? String.length (normalize s)); [done|].
  intros Hn Hr. right. right.
  pose proof (fun Hc => walk_dropped_last _ _ _ _ _ _ _ Hc Hr Hn) as H.
  destruct H as [(seg & Hlast & Hk) He]; [done|].
  split; [|done]. unfold demands_directory. by rewrite Hlast, Hk.
Qed.

Lemma entry_at_normalize files s e :
  entry_at files s = Some e → entry_at files (normalize s) = Some e.
Proof.
  unfold entry_at. destruct (resolve files s) as [|e'] eqn:E; [done|].
  intros [= ->]. by rewrite (resolve_normalize _ _ _ E).
Qed.

Lemma Path_exists_spec p w :
  Path_exists p w =
  (match resolve (fs w) p with
   | inr _ => Ret true
   | inl e => if ignore_error e then Ret false else Raise (errno_exn e p)
   end, log_event (EvStat p) w).
Proof.
  unfold Path_exists, bind, stat, ret, lift.
  destruct (resolve (fs w) p) as [e|en]; [|done]. by destruct (ignore_error e).
Qed.

Lemma entry_at_resolve files s :
  entry_at files s ≠ None → ∃ en, resolve files s = inr en.
Proof. unfold entry_at. destruct (resolve files s) as [|en]; [done | eauto]. Qed.

Lemma nothing_at_resolve files s :
  nothing_at files s = true → ∃ e, resolve files s = inl e ∧ ignore_error e = true.
Proof. unfold nothing_at. destruct (resolve files s) as [e|]; [eauto | done]. Qed.

End os_facts.

(** ** The branches of load_csv *)

Section branches.
Import Pathlib.

(** What makes a path is not a DataFrame and passes the type gate. *)
Lemma Path_Ret_gate v p :
  Path v = Ret p →
  isinstance_DataFrame v = false ∧ isinstance_str_bytes_PathLike v = true.
Proof. unfold Path. destruct v as [| | | | | | |? ? [[]|]]; simpl; by intros. Qed.

Lemma Path_Ret_fspath v p :
  Path v = Ret p → ∃ s, os_fspath v = Ret (FStr s) ∧ p = normalize s.
Proof.
  unfold Path. destruct (os_fspath v) as [[s|b]|e]; intros [= <-]. eauto.
Qed.

Lemma fspath_Path v s : os_fspath v = Ret (FStr s) → Path v = Ret (normalize s).
Proof. unfold Path. by intros ->. Qed.

(** Past the type gate, [load_csv] is the existence check followed by
    [read_csv], by the [FileNotFoundError] of the source, or by the error
    of the check. *)
Lemma load_csv_path v p w :
  Path v = Ret p →
  load_csv v w =
  match Os.resolve (fs w) p with
  | inr _ => Csv.read_csv v (Os.log_event (EvStat p) w)
  | inl e =>
      (Raise (if Os.ignore_error e
              then mkExn FileNotFoundError ("File " +:+ format_value v +:+ " not found.")
              else Os.errno_exn e p),
       Os.log_event (EvStat p) w)
  end.
Proof.
  intros HP. destruct (Path_Ret_gate v p HP) as [Hdf Hgate].
  unfold load_csv. rewrite Hdf, Hgate. simpl.
  unfold bind at 1. unfold lift. rewrite HP.
  unfold bind. rewrite Path_exists_spec.
  destruct (Os.resolve (fs w) p) as [e|en]; [|done]. by destruct (Os.ignore_error e).
Qed.

Lemma load_csv_found v p w :
  Path v = Ret p →
  Os.entry_at (fs w) p ≠ None →
  load_csv v w = Csv.read_csv v (Os.log_event (EvStat p) w).
Proof.
  intros HP Hsome. rewrite (load_csv_path v p w HP).
  by destruct (entry_at_resolve _ _ Hsome) as [en ->].
Qed.

Lemma load_csv_missing v p w :
  Path v = Ret p →
  Os.nothing_at (fs w) p = true →
  load_csv v w =
  (Raise (mkExn FileNotFoundError ("File " +:+ format_value v +:+ " not found.")),
   Os.log_event (EvStat p) w).
Proof.
  intros HP Hnone. rewrite (load_csv_path v p w HP).
  by destruct (nothing_at_resolve _ _ Hnone) as (e & -> & ->).
Qed.

End branches.

(** C3 (as stated, refuted).  A path-like object whose [__fspath__] names
    a path at which nothing exists makes [load_csv] raise
    [FileNotFoundError] with a message that shows [str(source)] and not
    the path. *)
Lemma missing_path_message_lacks_path_of_path_like_object :
  Path (VObj "__main__.Upload" "<Upload 17>" (Some (FStr "gone.csv"))) = Ret "gone.csv"
  ∧ Os.nothing_at (fs Sample.world) "gone.csv" = true
  ∧ fst (load_csv (VObj "__main__.Upload" "<Upload 17>" (Some (FStr "gone.csv")))
           Sample.world)
    = Raise (mkExn FileNotFoundError "File <Upload 17> not found.")
  ∧ Text.includes "gone.csv" "File <Upload 17> not found." = false.
Proof. by vm_compute. Qed.

(** C3 (amended).  When [Path(source)] is a path at which nothing exists
    (the stat says so), [load_csv] raises [FileNotFoundError] in the world
    after that stat, and the message holds the text of [source]: for a
    [str] that is the string itself, for a [pathlib.Path] the path; for
    any other path-like object it is [str(source)]. *)
Theorem missing_path_rejected (v : PyValue) (p : string) (w : World) :
  Path v = Ret p →
  Os.nothing_at (fs w) p = true →
  ∃ msg,
    load_csv v w = (Raise (mkExn FileNotFoundError msg), Os.log_event (EvStat p) w)
    ∧ Text.includes (format_value v) msg = true
    ∧ (∀ s, v = VStr s → Text.includes s msg = true)
    ∧ (∀ s, v = PathObject s → Text.includes p msg = true).
Proof.
  intros HP Hnone. rewrite (load_csv_missing v p w HP Hnone).
  eexists. split; [reflexivity|]. split; [apply includes_infix|].
  split.
  - intros s ->. apply includes_infix.
  - intros s ->. unfold PathObject in *.
    unfold Path in HP. simpl in HP. rewrite normalize_idempotent in HP.
    injection HP as <-. apply includes_infix.
Qed.

Lemma missing_path_rejected_witness :
  (∃ msg,
     load_csv (VStr "/tmp/does-not-exist-12345.csv") Sample.world =
       (Raise (mkExn FileNotFoundError msg),
        Os.log_event (EvStat "/tmp/does-not-exist-12345.csv") Sample.world)
     ∧ Text.includes "/tmp/does-not-exist-12345.csv" msg = true)
  ∧ (∃ msg,
       load_csv (PathObject "data//gone.csv") Sample.world =
         (Raise (mkExn FileNotFoundError msg),
          Os.log_event (EvStat "data/gone.csv") Sample.world)
       ∧ Text.includes "data/gone.csv" msg = true).
Proof.
  split.
  - destruct (missing_path_rejected (VStr "/tmp/does-not-exist-12345.csv")
                "/tmp/does-not-exist-12345.csv" Sample.world eq_refl eq_refl)
      as (msg & H1 & _ & H3 & _).
    exists msg. split; [exact H1 | exact (H3 _ eq_refl)].
  - destruct (missing_path_rejected (PathObject "data//gone.csv")
                "data/gone.csv" Sample.world eq_refl eq_refl)
      as (msg & H1 & _ & _ & H4).
    exists msg. split; [exact H1 | exact (H4 "data//gone.csv" eq_refl)].
Defined.

(** A stat that fails for another reason than absence is not taken for
    absence: its error is raised, not [FileNotFoundError].  So it is for
    a name of 300 characters and for a name below a directory that cannot
    be searched.  A loop of symbolic links, a missing directory before a
    name that is too long, and a null byte in the name count as
    absence. *)
Example unexaminable_names_raise_the_error_of_the_stat :
  observe_kind (load_csv (VStr Sample.long_name) Sample.world)
    = ObsError OSError EmptyString
  ∧ observe_kind (load_csv (VStr "vault/file.csv") Sample.guarded_world)
    = ObsError PermissionError EmptyString
  ∧ observe_kind (load_csv (VStr "loop/file.csv") Sample.guarded_world)
    = ObsError FileNotFoundError EmptyString
  ∧ observe_kind (load_csv (VStr ("missing/" +:+ Sample.long_name)) Sample.world)
    = ObsError FileNotFoundError EmptyString
  ∧ observe_kind (load_csv (VStr (String Text.NUL Sample.long_name)) Sample.world)
    = ObsError FileNotFoundError EmptyString.
Proof. by vm_compute. Qed.

(** C8.  Once the type gate and the existence check have passed, the call
    is the call of [read_csv]: whatever [read_csv] raises, [load_csv]
    raises, the same exception with the same message, in the same world. *)
Theorem parser_failure_propagates (v : PyValue) (p : string) (w : World) :
  Path v = Ret p →
  Os.entry_at (fs w) p ≠ None →
  load_csv v w = Csv.read_csv v (Os.log_event (EvStat p) w)
  ∧ ∀ e w',
      Csv.read_csv v (Os.log_event (EvStat p) w) = (Raise e, w') →
      load_csv v w = (Raise e, w').
Proof.
  intros HP Hsome. rewrite (load_csv_found v p w HP Hsome).
  split; [reflexivity | auto].
Qed.

Lemma parser_failure_propagates_witness :
  (∀ e w',
     Csv.read_csv (VStr "broken.csv") (Os.log_event (EvStat "broken.csv") Sample.world)
       = (Raise e, w') →
     load_csv (VStr "broken.csv") Sample.world = (Raise e, w'))
  ∧ observe_kind (load_csv (VStr "broken.csv") Sample.world) = ObsError ParserError EmptyString
  ∧ observe_kind (load_csv (VStr "secret.csv") Sample.world) = ObsError PermissionError EmptyString
  ∧ observe_kind (load_csv (VStr "latin1.csv") Sample.world) = ObsError UnicodeDecodeError EmptyString.
Proof.
  split; [|by vm_compute].
  refine (proj2 (parser_failure_propagates (VStr "broken.csv") "broken.csv" Sample.world
                   eq_refl _)).
  vm_compute. discriminate.
Defined.

(** C10.  A source that names a directory passes the existence check,
    which asks for any entry; the call is then the call of [read_csv],
    whose open fails with [IsADirectoryError]; that exception, and not
    [FileNotFoundError], reaches the caller. *)
Theorem directory_is_not_reported_missing (v : PyValue) (s : string) (w : World) :
  os_fspath v = Ret (FStr s) →
  Os.entry_at (fs w) s = Some EDir →
  load_csv v w = Csv.read_csv v (Os.log_event (EvStat (Pathlib.normalize s)) w)
  ∧ load_csv v w =
      (Raise (Os.errno_exn Os.EISDIR s),
       Os.log_event (EvOpen s) (Os.log_event (EvStat (Pathlib.normalize s)) w))
  ∧ exn_kind (Os.errno_exn Os.EISDIR s) = IsADirectoryError.
Proof.
  intros Hf Hdir.
  pose proof (fspath_Path v s Hf) as HP.
  rewrite (load_csv_found v _ w HP)
    by (rewrite (entry_at_normalize _ _ _ Hdir); done).
  split; [reflexivity|]. split; [|reflexivity].
  unfold Csv.read_csv. rewrite Hf. unfold bind, Os.read_file, Os.file_bytes. simpl.
  unfold Os.entry_at in Hdir.
  destruct (Os.resolve (fs w) s) as [|en]; [done|]. by injection Hdir as ->.
Qed.

Lemma directory_is_not_reported_missing_witness :
  load_csv (VStr "/tmp") Sample.world =
    (Raise (mkExn IsADirectoryError "[Errno 21] Is a directory: '/tmp'"),
     Os.log_event (EvOpen "/tmp") (Os.log_event (EvStat "/tmp") Sample.world)).
Proof.
  exact (proj1 (proj2 (directory_is_not_reported_missing (VStr "/tmp") "/tmp" Sample.world
                         eq_refl eq_refl))).
Defined.

(** ** DataFrame objects on the heap *)

Section frame_facts.
Import Pandas.

Lemma columns_value_mono (h h' : gmap addr Obj) cols t :
  h ⊆ h' → columns_value h cols = Some t → columns_value h' cols = Some t.
Proof.
  intros Hsub. revert t. induction cols as [|[name b] rest IH]; intros t; simpl; [done|].
  destruct (h !! b) as [[data| |]|] eqn:Eb; try done.
  destruct (columns_value h rest) as [t'|] eqn:Er; [|done].
  intros [= <-]. rewrite (lookup_weaken _ _ _ _ Eb Hsub), (IH t' eq_refl). done.
Qed.

Lemma columns_value_names h cols t :
  columns_value h cols = Some t → map fst t = map fst cols.
Proof.
  revert t. induction cols as [|[name b] rest IH]; intros t; simpl; [by intros [= <-]|].
  destruct (h !! b) as [[data| |]|]; try done.
  destruct (columns_value h rest) as [t'|]; [|done].
  intros [= <-]. simpl. by rewrite (IH t').
Qed.

(** The buffers of a table: new addresses, holding the columns. *)
Lemma alloc_columns_spec t w :
  ∃ cols w',
    alloc_columns t w = (Ret cols, w')
    ∧ heap w ⊆ heap w'
    ∧ columns_value (heap w') cols = Some t
    ∧ Forall (fun c : string * addr => heap w !! c.2 = None) cols
    ∧ fs w' = fs w ∧ fs_log w' = fs_log w.
Proof.
  revert w. induction t as [|[name data] rest IH]; intros w; simpl.
  - exists [], w. by repeat split.
  - destruct (alloc_spec (OArray data) w) as (b & Ea & Hb).
    rewrite (bind_Ret _ _ _ _ _ Ea).
    set (w1 := mkWorld _ _ _).
    assert (Hsub1 : heap w ⊆ heap w1) by by apply insert_subseteq.
    assert (Hb1 : heap w1 !! b = Some (OArray data)) by apply lookup_insert_eq.
    assert (Hfs1 : fs w1 = fs w ∧ fs_log w1 = fs_log w) by done.
    clearbody w1.
    destruct (IH w1) as (cols & w' & E & Hsub & Hval & Hfresh & Hfs & Hlog).
    unfold bind. rewrite E.
    exists ((name, b) :: cols), w'. split; [done|].
    split; [by etrans|]. split.
    + simpl. by rewrite (lookup_weaken _ _ _ _ Hb1 Hsub), Hval.
    + split; [|destruct Hfs1; split; congruence]. constructor; [done|].
      eapply Forall_impl; [exact Hfresh|]. intros c Hc. cbv beta in *.
      destruct (heap w !! c.2) as [o|] eqn:Eo; [|done].
      by rewrite (lookup_weaken _ _ _ _ Eo Hsub1) in Hc.
Qed.

(** The DataFrame object of a table: a new address whose value is the
    table; nothing that was on the heap is changed. *)
Lemma alloc_table_spec t w :
  ∃ a w' cols,
    alloc_table t w = (Ret a, w')
    ∧ heap w ⊆ heap w'
    ∧ heap w !! a = None
    ∧ heap w' !! a = Some (OFrame cols)
    ∧ Forall (fun c : string * addr => heap w !! c.2 = None) cols
    ∧ frame_value (heap w') a = Some t
    ∧ fs w' = fs w ∧ fs_log w' = fs_log w.
Proof.
  unfold alloc_table.
  destruct (alloc_columns_spec t w) as (cols & w1 & Ec & Hsub & Hval & Hfresh & Hfs & Hlog).
  rewrite (bind_Ret _ _ _ _ _ Ec).
  destruct (alloc_spec (OFrame cols) w1) as (a & -> & Ha).
  assert (Hsub1 : heap w1 ⊆ <[a:=OFrame cols]> (heap w1)) by by apply insert_subseteq.
  eexists a, _, cols. split; [reflexivity|]. simpl.
  split; [by etrans|]. split.
  { destruct (heap w !! a) as [o|] eqn:Eo; [|done].
    by rewrite (lookup_weaken _ _ _ _ Eo Hsub) in Ha. }
  split; [apply lookup_insert_eq|]. split; [done|]. split; [|done].
  unfold frame_value. rewrite lookup_insert_eq.
  by apply (columns_value_mono (heap w1)).
Qed.

(** Copying the buffers of a DataFrame whose value is [t] is allocating
    the buffers of [t]. *)
Lemma copy_columns_alloc cols t w :
  columns_value (heap w) cols = Some t →
  copy_columns cols w = alloc_columns t w.
Proof.
  revert t w. induction cols as [|[name b] rest IH]; intros t w; simpl.
  - by intros [= <-].
  - destruct (heap w !! b) as [[data| |]|] eqn:Eb; try done.
    destruct (columns_value (heap w) rest) as [t'|] eqn:Er; [|done].
    intros [= <-]. simpl.
    assert (Ed : deref_array b w = (Ret data, w)) by (unfold deref_array; by rewrite Eb).
    rewrite (bind_Ret _ _ _ _ _ Ed).
    destruct (alloc_spec (OArray data) w) as (b' & Ea & Hb').
    rewrite !(bind_Ret _ _ _ _ _ Ea).
    unfold bind. rewrite (IH t'); [done|]. simpl.
    apply (columns_value_mono (heap w)); [|done]. by apply insert_subseteq.
Qed.

Lemma DataFrame_copy_alloc a t w :
  frame_value (heap w) a = Some t →
  DataFrame_copy true (VDataFrame a) w =
  bind (alloc_table t) (fun r => ret (VDataFrame r)) w.
Proof.
  unfold frame_value. intros Hv. simpl.
  destruct (heap w !! a) as [[|cols|]|] eqn:Ea; try done.
  assert (Ed : deref_frame a w = (Ret cols, w)) by (unfold deref_frame; by rewrite Ea).
  rewrite (bind_Ret _ _ _ _ _ Ed).
  unfold alloc_table. rewrite bind_assoc.
  unfold bind. by rewrite (copy_columns_alloc cols t w Hv).
Qed.

End frame_facts.

(** ** load_csv on a path, as a function of the file system *)
Section outcome_facts.
Import Pathlib.

Lemma read_file_spec s w :
  Os.read_file s w = (Os.file_bytes (fs w) s, Os.log_event (EvOpen s) w).
Proof. reflexivity. Qed.

Lemma read_outcome_bytes files s :
  read_outcome files s =
  match Os.file_bytes files s with
  | Ret content => Csv.parse_csv content
  | Raise e => Raise e
  end.
Proof. reflexivity. Qed.

Lemma read_csv_observe v s w :
  os_fspath v = Ret (FStr s) →
  observe (Csv.read_csv v w) = obs_of (read_outcome (fs w) s)
  ∧ fs (snd (Csv.read_csv v w)) = fs w.
Proof.
  intros Hf. unfold Csv.read_csv. rewrite Hf, read_outcome_bytes.
  set (w1 := Os.log_event (EvOpen s) w).
  pose proof (read_file_spec s w) as Eopen. fold w1 in Eopen.
  destruct (Os.file_bytes (fs w) s) as [content|e];
    [|by rewrite (bind_Raise _ _ _ _ _ Eopen)].
  rewrite (bind_Ret _ _ _ _ _ Eopen).
  destruct (Csv.parse_csv content) as [t|e].
  - rewrite (bind_Ret _ _ w1 t w1) by done.
    destruct (alloc_table_spec t w1) as (a & w' & cols & Ea & _ & _ & _ & _ & Hv & Hfs & _).
    rewrite (bind_Ret _ _ _ _ _ Ea). unfold ret, observe. simpl. by rewrite Hv.
  - by rewrite (bind_Raise _ _ w1 e w1).
Qed.

(** The observation of a call on a source that is not a DataFrame is a
    function of the source and of the files, and the call leaves the
    files as they are. *)
Lemma load_csv_observe v w :
  isinstance_DataFrame v = false →
  observe (load_csv v w) = obs_of (path_outcome (fs w) v)
  ∧ fs (snd (load_csv v w)) = fs w.
Proof.
  intros Hdf. unfold path_outcome.
  destruct (isinstance_str_bytes_PathLike v) eqn:Hgate; simpl.
  - destruct (Path v) as [p|e] eqn:HP.
    + destruct (Path_Ret_fspath v p HP) as (s & Hf & ->).
      rewrite (load_csv_path v _ w HP), Hf.
      destruct (Os.resolve (fs w) (normalize s)) as [e|en] eqn:Een.
      * by destruct (Os.ignore_error e).
      * destruct (read_csv_observe v s (Os.log_event (EvStat (normalize s)) w) Hf)
          as [-> ->]. done.
    + unfold load_csv. rewrite Hdf, Hgate. simpl.
      unfold bind, lift. rewrite HP. done.
  - unfold load_csv. rewrite Hdf, Hgate. done.
Qed.

Lemma obs_of_not_other o : obs_of o ≠ ObsOther.
Proof. by destruct o. Qed.

End outcome_facts.

(** C9.  For a source that is not a DataFrame, what the caller observes
    (the table by value, or the exception) depends on the files only: two
    calls in worlds with the same files, whatever their heaps and logs,
    give equal tables or the same exception; the call leaves the files as
    they are, so a second call right after the first gives the same
    again. *)
Theorem load_csv_deterministic (v : PyValue) (w1 w2 : World) :
  isinstance_DataFrame v = false →
  fs w1 = fs w2 →
  observe (load_csv v w1) = observe (load_csv v w2)
  ∧ observe (load_csv v w1) ≠ ObsOther
  ∧ fs (snd (load_csv v w1)) = fs w1
  ∧ observe (load_csv v (snd (load_csv v w1))) = observe (load_csv v w1).
Proof.
  intros Hdf Hfs.
  destruct (load_csv_observe v w1 Hdf) as [E1 F1].
  destruct (load_csv_observe v w2 Hdf) as [E2 _].
  destruct (load_csv_observe v (snd (load_csv v w1)) Hdf) as [E3 _].
  rewrite E1, E2, E3, F1, Hfs. repeat split; auto using obs_of_not_other.
Qed.

Lemma load_csv_deterministic_witness :
  observe (load_csv (VStr "file.csv") Sample.world) = ObsTable Sample.people
  ∧ observe (load_csv (VStr "file.csv") (snd (load_csv (VStr "file.csv") Sample.world)))
    = observe (load_csv (VStr "file.csv") Sample.world).
Proof.
  split; [by vm_compute|].
  exact (proj2 (proj2 (proj2
    (load_csv_deterministic (VStr "file.csv") Sample.world Sample.world eq_refl eq_refl)))).
Defined.

(** C6 (as stated, refuted).  The empty string and the path object made
    from it do not give the same error: [Path(empty)] is the current
    directory, so both pass the existence check; then [read_csv] opens the
    empty name in one call (no such file) and the name [.] in the other (a
    directory). *)
Lemma path_object_equivalence_fails_on_empty_string :
  observe_kind (load_csv (VStr EmptyString) Sample.world)
    = ObsError FileNotFoundError EmptyString
  ∧ observe_kind (load_csv (PathObject EmptyString) Sample.world)
    = ObsError IsADirectoryError EmptyString
  ∧ observe_kind (load_csv (VStr "file.csv/") Sample.world)
    = ObsError NotADirectoryError EmptyString
  ∧ observe_kind (load_csv (PathObject "file.csv/") Sample.world)
    = ObsTable Sample.people
  ∧ observe_kind (load_csv (VStr EmptyString) Sample.world)
    ≠ observe_kind (load_csv (PathObject EmptyString) Sample.world).
Proof. by vm_compute. Qed.

Section path_object.
Import Pathlib.

Lemma kind_of_read_outcome files s n :
  Os.resolve files s = Os.resolve files n →
  match obs_of (read_outcome files s) with
  | ObsError k _ => ObsError k EmptyString
  | o => o
  end =
  match obs_of (read_outcome files n) with
  | ObsError k _ => ObsError k EmptyString
  | o => o
  end.
Proof.
  intros H. unfold read_outcome, Os.file_bytes. rewrite H.
  destruct (Os.resolve files n) as [[]|[[|] c| | |]]; done.
Qed.

End path_object.

(** C6 (amended).  For a string that names what the text of its path
    object names (the same entry, or nothing in both cases), the string
    and the path object give equal tables or exceptions of the same
    class. *)
Theorem path_object_equivalence (s : string) (w : World) :
  Os.resolve (fs w) s = Os.resolve (fs w) (Pathlib.normalize s) →
  observe_kind (load_csv (VStr s) w) = observe_kind (load_csv (PathObject s) w).
Proof.
  intros H. unfold observe_kind.
  destruct (load_csv_observe (VStr s) w eq_refl) as [-> _].
  destruct (load_csv_observe (PathObject s) w eq_refl) as [-> _].
  unfold path_outcome, PathObject, Path. simpl.
  rewrite normalize_idempotent.
  pose proof (kind_of_read_outcome _ _ _ H) as K.
  destruct (Os.resolve (fs w) (Pathlib.normalize s)) as [e|en]; [|exact K].
  by destruct (Os.ignore_error e).
Qed.

Lemma path_object_equivalence_witness :
  observe_kind (load_csv (VStr ".//file.csv") Sample.world)
  = observe_kind (load_csv (PathObject ".//file.csv") Sample.world).
Proof.
  exact (path_object_equivalence ".//file.csv" Sample.world eq_refl).
Defined.

(** Strings in normal form are the plain case of the amended claim. *)
Corollary path_object_equivalence_normal (s : string) (w : World) :
  Pathlib.normalize s = s →
  observe (load_csv (VStr s) w) = observe (load_csv (PathObject s) w).
Proof.
  intros H.
  destruct (load_csv_observe (VStr s) w eq_refl) as [-> _].
  destruct (load_csv_observe (PathObject s) w eq_refl) as [-> _].
  unfold path_outcome, PathObject, Path. simpl. by rewrite !H.
Qed.

(** ** What load_csv does to the heap *)

Section only_allocates_facts.

Lemma only_allocates_ret {A} (a : A) : only_allocates (ret a).
Proof. intros w. split; [done|]. auto. Qed.

Lemma only_allocates_raise {A} k msg : only_allocates (@raise A k msg).
Proof. intros w. split; [done|]. auto. Qed.

Lemma only_allocates_lift {A} (o : Outcome A) : only_allocates (lift o).
Proof. intros w. split; [done|]. auto. Qed.

Lemma only_allocates_bind {A B} (m : Py A) (f : A → Py B) :
  only_allocates m → (∀ a, only_allocates (f a)) → only_allocates (bind m f).
Proof.
  intros Hm Hf w. unfold bind. specialize (Hm w).
  destruct (m w) as [[a|e] w1]; simpl in *; [|done].
  destruct Hm as [Hsub Hnew]. destruct (Hf a w1) as [Hsub' Hnew']. split.
  - by etrans.
  - intros x items Hx. by apply Hnew, Hnew'.
Qed.

Lemma only_allocates_alloc o :
  (∀ items, o ≠ OList items) → only_allocates (alloc o).
Proof.
  intros Ho w. simpl. split.
  - apply insert_subseteq, fresh_not_allocated.
  - intros x items Hx. destruct (decide (x = fresh (dom (heap w)))) as [->|Hne].
    + rewrite lookup_insert_eq in Hx. injection Hx as Hx. by destruct (Ho items).
    + by rewrite lookup_insert_ne in Hx.
Qed.

Lemma only_allocates_deref_frame a : only_allocates (deref_frame a).
Proof. intros w. unfold deref_frame. repeat case_match; (split; [done|auto]). Qed.

Lemma only_allocates_deref_array a : only_allocates (deref_array a).
Proof. intros w. unfold deref_array. repeat case_match; (split; [done|auto]). Qed.

Lemma only_allocates_copy_columns cols : only_allocates (Pandas.copy_columns cols).
Proof.
  induction cols as [|[name b] rest IH]; simpl; [apply only_allocates_ret|].
  apply only_allocates_bind; [apply only_allocates_deref_array | intros data].
  apply only_allocates_bind; [by apply only_allocates_alloc | intros b'].
  apply only_allocates_bind; [exact IH | intros rest']. apply only_allocates_ret.
Qed.

Lemma only_allocates_copy deep v : only_allocates (Pandas.DataFrame_copy deep v).
Proof.
  destruct v; simpl; try apply only_allocates_raise.
  apply only_allocates_bind; [apply only_allocates_deref_frame | intros cols].
  apply only_allocates_bind.
  - destruct deep; [apply only_allocates_copy_columns | apply only_allocates_ret].
  - intros cols'. apply only_allocates_bind; [by apply only_allocates_alloc | intros r].
    apply only_allocates_ret.
Qed.

Lemma only_allocates_alloc_columns t : only_allocates (Pandas.alloc_columns t).
Proof.
  induction t as [|[name data] rest IH]; simpl; [apply only_allocates_ret|].
  apply only_allocates_bind; [by apply only_allocates_alloc | intros b].
  apply only_allocates_bind; [exact IH | intros rest']. apply only_allocates_ret.
Qed.

Lemma only_allocates_alloc_table t : only_allocates (Pandas.alloc_table t).
Proof.
  apply only_allocates_bind; [apply only_allocates_alloc_columns | intros cols].
  by apply only_allocates_alloc.
Qed.

Lemma only_allocates_read_file s : only_allocates (Os.read_file s).
Proof. intros w. unfold Os.read_file. repeat case_match; (split; [done|auto]). Qed.

Lemma only_allocates_Path_exists p : only_allocates (Path_exists p).
Proof. intros w. rewrite Path_exists_spec. repeat case_match; (split; [done|auto]). Qed.

Lemma only_allocates_read_csv v : only_allocates (Csv.read_csv v).
Proof.
  unfold Csv.read_csv. destruct (os_fspath v) as [[s|b]|e]; try apply only_allocates_raise.
  apply only_allocates_bind; [apply only_allocates_read_file | intros bytes].
  apply only_allocates_bind; [apply only_allocates_lift | intros t].
  apply only_allocates_bind; [apply only_allocates_alloc_table | intros a].
  apply only_allocates_ret.
Qed.

Lemma only_allocates_load_csv v : only_allocates (load_csv v).
Proof.
  unfold load_csv.
  destruct (isinstance_DataFrame v); [apply only_allocates_copy|].
  destruct (isinstance_str_bytes_PathLike v); simpl; [|apply only_allocates_raise].
  apply only_allocates_bind; [apply only_allocates_lift | intros p].
  apply only_allocates_bind; [apply only_allocates_Path_exists | intros found].
  destruct found; simpl; [apply only_allocates_read_csv | apply only_allocates_raise].
Qed.

Lemma only_allocates_lists_kept {A} (m : Py A) w :
  only_allocates m → lists_kept (heap w) (heap (snd (m w))).
Proof.
  intros Hm x items. destruct (Hm w) as [Hsub Hnew]. split.
  - intros Hx. by apply (lookup_weaken _ _ _ _ Hx).
  - apply Hnew.
Qed.

End only_allocates_facts.

(** ** Separation of DataFrame objects *)

Section separation.
Import Pandas.

Lemma lists_kept_refl (h : gmap addr Obj) : lists_kept h h.
Proof. by intros x items. Qed.

Lemma lists_kept_trans (h1 h2 h3 : gmap addr Obj) :
  lists_kept h1 h2 → lists_kept h2 h3 → lists_kept h1 h3.
Proof. intros H12 H23 x items. by rewrite (H12 x items). Qed.

Lemma lists_kept_insert (h : gmap addr Obj) b o :
  (∀ items, h !! b ≠ Some (OList items)) → (∀ items, o ≠ OList items) →
  lists_kept h (<[b:=o]> h).
Proof.
  intros Hb Ho x items. destruct (decide (x = b)) as [->|Hne].
  - rewrite lookup_insert_eq. split.
    + intros Hx. by destruct (Hb items).
    + intros Hx. injection Hx as Hx. by destruct (Ho items).
  - by rewrite lookup_insert_ne.
Qed.

Lemma cell_view_kept (h h' : gmap addr Obj) c :
  lists_kept h h' → cell_view h' c = cell_view h c.
Proof.
  intros H. destruct c as [z|s| |o]; try done.
  unfold cell_view. f_equal.
  destruct (h !! o) as [[d|cs|items]|] eqn:E.
  - destruct (h' !! o) as [[d'|cs'|items']|] eqn:E'; try done.
    apply H in E'. congruence.
  - destruct (h' !! o) as [[d'|cs'|items']|] eqn:E'; try done.
    apply H in E'. congruence.
  - apply H in E. by rewrite E.
  - destruct (h' !! o) as [[d'|cs'|items']|] eqn:E'; try done.
    apply H in E'. congruence.
Qed.

(** What a DataFrame shows stays when its value stays and no list object
    changes. *)
Lemma table_view_kept (h h' : gmap addr Obj) a a' t :
  frame_value h a = Some t → frame_value h' a' = Some t → lists_kept h h' →
  table_view h' a' = table_view h a.
Proof.
  intros Hv Hv' H. unfold table_view. rewrite Hv, Hv'. f_equal.
  apply map_ext. intros [n d]. simpl. f_equal.
  apply map_ext. intros c. by apply cell_view_kept.
Qed.

Lemma cell_view_scalar (h h' : gmap addr Obj) c :
  scalar_cell c = true → cell_view h' c = cell_view h c.
Proof. by destruct c. Qed.

(** What a DataFrame without references shows is its value. *)
Lemma table_view_scalar (h h' : gmap addr Obj) a a' t :
  frame_value h a = Some t → frame_value h' a' = Some t → scalar_table t = true →
  table_view h' a' = table_view h a.
Proof.
  intros Hv Hv' Hs. unfold table_view. rewrite Hv, Hv'. f_equal.
  unfold scalar_table in Hs. rewrite forallb_forall in Hs.
  apply map_ext_in. intros [n d] Hin. simpl. f_equal.
  specialize (Hs _ Hin). simpl in Hs. rewrite forallb_forall in Hs.
  apply map_ext_in. intros c Hc. by apply cell_view_scalar, Hs.
Qed.

Lemma columns_value_agree (h h' : gmap addr Obj) cols :
  (∀ x, x ∈ map snd cols → h' !! x = h !! x) →
  columns_value h' cols = columns_value h cols.
Proof.
  induction cols as [|[name b] rest IH]; intros H; simpl; [done|].
  rewrite H by (simpl; left). rewrite IH; [done|].
  intros x Hx. apply H. simpl. by right.
Qed.

(** The value of a DataFrame depends on its footprint only. *)
Lemma frame_value_agree (h h' : gmap addr Obj) a :
  (∀ x, x ∈ footprint h a → h' !! x = h !! x) →
  frame_value h' a = frame_value h a ∧ footprint h' a = footprint h a.
Proof.
  intros H. unfold frame_value.
  assert (Ha : h' !! a = h !! a).
  { apply H. unfold footprint. repeat case_match; set_solver. }
  unfold footprint in *. rewrite Ha.
  destruct (h !! a) as [[data|cols|]|]; try done.
  split; [|done]. apply columns_value_agree.
  intros x Hx. apply H. apply elem_of_union_r, elem_of_list_to_set. done.
Qed.

Lemma columns_value_dom (h : gmap addr Obj) cols t :
  columns_value h cols = Some t → ∀ x, x ∈ map snd cols → x ∈ dom h.
Proof.
  revert t. induction cols as [|[name b] rest IH]; intros t; simpl.
  - intros _ x Hx. by apply elem_of_nil in Hx.
  - destruct (h !! b) as [[data| |]|] eqn:Eb; try done.
    destruct (columns_value h rest) as [t'|]; [|done].
    intros _ x Hx. apply elem_of_cons in Hx as [->|Hx].
    + by apply elem_of_dom.
    + by apply (IH t').
Qed.

(** A DataFrame that has a value occupies allocated addresses. *)
Lemma frame_value_footprint_dom (h : gmap addr Obj) a t :
  frame_value h a = Some t → footprint h a ⊆ dom h.
Proof.
  unfold frame_value, footprint.
  destruct (h !! a) as [[data|cols|]|] eqn:Ea; try done.
  intros Hv x Hx. apply elem_of_union in Hx as [Hx|Hx].
  - apply elem_of_singleton in Hx as ->. by apply elem_of_dom.
  - apply elem_of_list_to_set in Hx. by apply (columns_value_dom h cols t).
Qed.

Lemma columns_value_not_list (h : gmap addr Obj) cols t :
  columns_value h cols = Some t →
  ∀ x, x ∈ map snd cols → ∀ items, h !! x ≠ Some (OList items).
Proof.
  revert t. induction cols as [|[name b] rest IH]; intros t; simpl.
  - intros _ x Hx. by apply elem_of_nil in Hx.
  - destruct (h !! b) as [[data| |]|] eqn:Eb; try done.
    destruct (columns_value h rest) as [t'|]; [|done].
    intros _ x Hx. apply elem_of_cons in Hx as [->|Hx].
    + intros items. by rewrite Eb.
    + by apply (IH t').
Qed.

(** No list object lies in the footprint of a DataFrame that has a value:
    the objects its cells refer to are outside of it. *)
Lemma footprint_not_list (h : gmap addr Obj) a t :
  frame_value h a = Some t →
  ∀ x, x ∈ footprint h a → ∀ items, h !! x ≠ Some (OList items).
Proof.
  unfold frame_value, footprint.
  destruct (h !! a) as [[data|cols|]|] eqn:Ea; try done.
  intros Hv x Hx. apply elem_of_union in Hx as [Hx|Hx].
  - apply elem_of_singleton in Hx as ->. intros items. by rewrite Ea.
  - apply elem_of_list_to_set in Hx. by apply (columns_value_not_list h cols t).
Qed.

Lemma set_column_addrs name b cols x :
  x ∈ map snd (set_column name b cols) → x = b ∨ x ∈ map snd cols.
Proof.
  induction cols as [|[n b0] rest IH]; simpl.
  - intros Hx. apply list_elem_of_singleton in Hx. by left.
  - case_decide; simpl; intros Hx; apply elem_of_cons in Hx as [->|Hx]; auto.
    + right. by right.
    + right. by left.
    + destruct (IH Hx) as [->|Hin]; [by left|]. right. by right.
Qed.

(** What a mutation of the DataFrame at [a] writes: inside the footprint
    of [a], at addresses that were not allocated, or at a list object,
    which stays a list object; the footprint grows by addresses that were
    not allocated only; and a mutation of the table's own storage leaves
    every list object as it is. *)
Lemma mutate_frame a m w :
  let w' := snd (mutate a m w) in
  (∀ x, x ∉ footprint (heap w) a → x ∈ dom (heap w) →
        heap w' !! x = heap w !! x
        ∨ ∃ items items', heap w !! x = Some (OList items)
                          ∧ heap w' !! x = Some (OList items'))
  ∧ (∀ x, x ∈ footprint (heap w') a → x ∈ footprint (heap w) a ∨ x ∉ dom (heap w))
  ∧ (own_storage m = true → lists_kept (heap w) (heap w')).
Proof.
  intros w'. subst w'. destruct (mutate a m w) as [o w'] eqn:E. simpl.
  assert (Hid : w' = w →
                (∀ x, x ∉ footprint (heap w) a → x ∈ dom (heap w) →
                      heap w' !! x = heap w !! x
                      ∨ ∃ items items', heap w !! x = Some (OList items)
                                        ∧ heap w' !! x = Some (OList items'))
                ∧ (∀ x, x ∈ footprint (heap w') a →
                        x ∈ footprint (heap w) a ∨ x ∉ dom (heap w))
                ∧ (own_storage m = true → lists_kept (heap w) (heap w'))).
  { intros ->. split; [auto|]. split; [auto|]. intros _. apply lists_kept_refl. }
  assert (Hself : ∀ cols, heap w !! a = Some (OFrame cols) → a ∈ footprint (heap w) a).
  { intros cols Ea. unfold footprint. rewrite Ea. by apply elem_of_union_l, elem_of_singleton. }
  destruct m as [i j v | name data | name | i j v];
    unfold mutate, bind, deref_frame in E;
    destruct (heap w !! a) as [[d0|cols|l0]|] eqn:Ea;
    try (apply Hid; congruence).
  - (* SetCell *)
    destruct (cols !! j) as [[n b]|] eqn:Ej; [|apply Hid; unfold raise in E; congruence].
    unfold deref_array in E.
    destruct (heap w !! b) as [[data| |]|] eqn:Eb; try (apply Hid; congruence).
    case_decide; [|apply Hid; unfold raise in E; congruence].
    unfold store in E. injection E as _ <-. simpl.
    assert (Hba : b ≠ a) by congruence.
    assert (Hin : b ∈ footprint (heap w) a).
    { unfold footprint. rewrite Ea. apply elem_of_union_r, elem_of_list_to_set.
      apply list_elem_of_fmap. exists (n, b). split; [done|].
      by apply list_elem_of_lookup_2 in Ej. }
    split; [|split].
    + intros x Hx _. left. apply lookup_insert_ne. congruence.
    + intros x. unfold footprint. rewrite lookup_insert_ne by done. auto.
    + intros _. apply lists_kept_insert; [|done]. intros items. by rewrite Eb.
  - (* SetColumn *)
    unfold alloc, store in E. simpl in E. injection E as _ <-. simpl.
    set (b := fresh (dom (heap w))).
    assert (Hb : heap w !! b = None) by apply fresh_not_allocated.
    assert (Hba : b ≠ a) by congruence.
    split; [|split].
    + intros x Hx Hdom. left. rewrite lookup_insert_ne.
      * apply lookup_insert_ne. intros ->. apply elem_of_dom in Hdom as [? ?]. congruence.
      * intros ->. apply Hx. by apply (Hself cols).
    + intros x. unfold footprint. rewrite lookup_insert_eq, Ea.
      intros Hx. apply elem_of_union in Hx as [Hx|Hx].
      * left. by apply elem_of_union_l.
      * apply elem_of_list_to_set, set_column_addrs in Hx as [->|Hx].
        -- right. by apply not_elem_of_dom.
        -- left. by apply elem_of_union_r, elem_of_list_to_set.
    + intros _. apply (lists_kept_trans _ (<[b:=OArray data]> (heap w))).
      * apply lists_kept_insert; [|done]. intros items. by rewrite Hb.
      * apply lists_kept_insert; [|done]. intros items.
        rewrite lookup_insert_ne by done. by rewrite Ea.
  - (* DropColumn *)
    case_bool_decide; [|apply Hid; unfold raise in E; congruence].
    unfold store in E. injection E as _ <-. simpl. split; [|split].
    + intros x Hx _. left. apply lookup_insert_ne. intros ->. apply Hx. by apply (Hself cols).
    + intros x. unfold footprint. rewrite lookup_insert_eq, Ea.
      intros Hx. left. apply elem_of_union in Hx as [Hx|Hx].
      * by apply elem_of_union_l.
      * apply elem_of_union_r, elem_of_list_to_set.
        apply elem_of_list_to_set, list_elem_of_fmap in Hx as (c & -> & Hc).
        apply list_elem_of_filter in Hc as [_ Hc].
        apply list_elem_of_fmap. eauto.
    + intros _. apply lists_kept_insert; [|done]. intros items. by rewrite Ea.
  - (* AppendToCell *)
    destruct (cols !! j) as [[n b]|] eqn:Ej; [|apply Hid; unfold raise in E; congruence].
    unfold deref_array in E.
    destruct (heap w !! b) as [[data| |]|] eqn:Eb; try (apply Hid; congruence).
    destruct (data !! i) as [[z|s| |o']|] eqn:Ei;
      try (apply Hid; unfold raise in E; congruence).
    unfold deref_list in E.
    destruct (heap w !! o') as [[d1|c1|items]|] eqn:Eo; try (apply Hid; congruence).
    unfold store in E. injection E as _ <-. simpl.
    assert (Hoa : o' ≠ a) by congruence.
    split; [|split].
    + intros x _ _. destruct (decide (x = o')) as [->|Hne].
      * right. exists items, (items ++ [v]). by rewrite lookup_insert_eq.
      * left. by apply lookup_insert_ne.
    + intros x. unfold footprint. rewrite lookup_insert_ne by done. auto.
    + done.
Qed.

(** Mutating one of two separate DataFrames leaves the value of the
    other as it is, and leaves them separate. *)
Lemma mutate_separate a r m w t :
  footprint (heap w) a ## footprint (heap w) r →
  frame_value (heap w) r = Some t →
  footprint (heap (snd (mutate a m w))) a ## footprint (heap (snd (mutate a m w))) r
  ∧ frame_value (heap (snd (mutate a m w))) r = Some t.
Proof.
  intros Hdisj Hv.
  destruct (mutate_frame a m w) as (Hframe & Hgrow & _).
  pose proof (frame_value_footprint_dom _ _ _ Hv) as Hdom.
  destruct (frame_value_agree (heap w) (heap (snd (mutate a m w))) r) as [Ev Ef].
  { intros x Hx. destruct (Hframe x) as [Heq|(items & items' & Hl & _)].
    - intros Hxa. by apply (Hdisj x).
    - by apply Hdom.
    - exact Heq.
    - by destruct (footprint_not_list _ _ _ Hv x Hx items). }
  rewrite Ev, Ef. split; [|done].
  intros x Hxa Hxr. destruct (Hgrow x Hxa) as [Hold|Hnew].
  - by apply (Hdisj x).
  - apply Hnew. by apply Hdom.
Qed.

Lemma mutate_all_separate a r ms w t :
  footprint (heap w) a ## footprint (heap w) r →
  frame_value (heap w) r = Some t →
  frame_value (heap (mutate_all a ms w)) r = Some t.
Proof.
  revert w. induction ms as [|m ms IH]; intros w Hdisj Hv; simpl; [done|].
  destruct (mutate_separate a r m w t Hdisj Hv) as [Hdisj' Hv'].
  by apply IH.
Qed.

(** Mutations of a table's own storage leave every list object as it is. *)
Lemma mutate_all_lists_kept a ms w :
  forallb own_storage ms = true → lists_kept (heap w) (heap (mutate_all a ms w)).
Proof.
  revert w. induction ms as [|m ms IH]; intros w Hown; simpl; [apply lists_kept_refl|].
  simpl in Hown. apply andb_true_iff in Hown as [Hm Hms].
  destruct (mutate_frame a m w) as (_ & _ & Hkept).
  apply (lists_kept_trans _ (heap (snd (mutate a m w)))); [by apply Hkept | by apply IH].
Qed.

Lemma frame_value_mono (h h' : gmap addr Obj) a t :
  h ⊆ h' → frame_value h a = Some t → frame_value h' a = Some t.
Proof.
  intros Hsub. unfold frame_value.
  destruct (h !! a) as [[data|cols|]|] eqn:Ea; try done.
  rewrite (lookup_weaken _ _ _ _ Ea Hsub). by apply columns_value_mono.
Qed.

End separation.

(** C1, as the code has it refuted: the copy that [load_csv] returns has
    its own column buffers, and the list object that a cell of an object
    column refers to is the one the cell of the argument refers to.
    Appending to it through the returned DataFrame changes what the
    argument shows, and appending to it through the argument changes what
    the returned DataFrame shows. *)
Lemma deep_copy_shares_the_objects_of_a_column :
  ∃ r w',
    load_csv (VDataFrame 3%positive) Sample.tagged_world = (Ret (VDataFrame r), w')
    ∧ r ≠ 3%positive
    ∧ table_view (heap w') 3%positive
      = Some [("tags", [(CRef 1%positive, Some [CStr "red"])])]
    ∧ table_view (heap w') r
      = Some [("tags", [(CRef 1%positive, Some [CStr "red"])])]
    ∧ table_view
        (heap (Pandas.mutate_all r [Pandas.AppendToCell 0 0 (CStr "blue")] w')) 3%positive
      = Some [("tags", [(CRef 1%positive, Some [CStr "red"; CStr "blue"])])]
    ∧ table_view
        (heap (Pandas.mutate_all 3%positive [Pandas.AppendToCell 0 0 (CStr "blue")] w')) r
      = Some [("tags", [(CRef 1%positive, Some [CStr "red"; CStr "blue"])])].
Proof. eexists _, _. split; [by vm_compute|]. by vm_compute. Qed.

(** C1, amended.  For a DataFrame whose value is [t], [load_csv] returns
    a new DataFrame object (an address that was not allocated, so not the
    argument) with the same value [t] and showing what the argument shows,
    the argument keeping its value; and the copy has storage of its own:
    whatever mutations are then applied to the result, the argument still
    has the value [t], and whatever mutations are applied to the argument,
    the result still has the value [t].  What either of them shows,
    referred objects included, stays as well when the mutations are of the
    tables' own storage, or when no cell of the table is a reference. *)
Theorem table_input_deep_copy (a : addr) (t : Table) (w : World) :
  frame_value (heap w) a = Some t →
  ∃ r w',
    load_csv (VDataFrame a) w = (Ret (VDataFrame r), w')
    ∧ r ≠ a
    ∧ heap w !! r = None
    ∧ frame_value (heap w') r = Some t
    ∧ frame_value (heap w') a = Some t
    ∧ (∀ ms, frame_value (heap (Pandas.mutate_all r ms w')) a = Some t)
    ∧ (∀ ms, frame_value (heap (Pandas.mutate_all a ms w')) r = Some t)
    ∧ table_view (heap w') r = table_view (heap w) a
    ∧ table_view (heap w') a = table_view (heap w) a
    ∧ (∀ ms, forallb Pandas.own_storage ms = true ∨ scalar_table t = true →
             table_view (heap (Pandas.mutate_all r ms w')) a = table_view (heap w) a
             ∧ table_view (heap (Pandas.mutate_all a ms w')) r = table_view (heap w) a).
Proof.
  intros Hv.
  pose proof (only_allocates_lists_kept (load_csv (VDataFrame a)) w
                (only_allocates_load_csv _)) as Hkept.
  revert Hkept.
  change (load_csv (VDataFrame a) w) with (Pandas.DataFrame_copy true (VDataFrame a) w).
  rewrite (DataFrame_copy_alloc a t w Hv).
  destruct (alloc_table_spec t w)
    as (r & w' & cols & Ea & Hsub & Hr & Hrf & Hfresh & Hvr & _ & _).
  rewrite (bind_Ret _ _ _ _ _ Ea). simpl. intros Hkept.
  exists r, w'. split; [reflexivity|].
  pose proof (frame_value_footprint_dom _ _ _ Hv) as Hdom.
  pose proof (frame_value_mono _ _ _ _ Hsub Hv) as Hva.
  assert (Hne : r ≠ a).
  { intros ->. unfold frame_value in Hv. by rewrite Hr in Hv. }
  assert (Hfa : footprint (heap w') a = footprint (heap w) a).
  { unfold footprint, frame_value in *.
    destruct (heap w !! a) as [o|] eqn:Eo; [|done].
    by rewrite (lookup_weaken _ _ _ _ Eo Hsub). }
  assert (Hdisj : footprint (heap w') r ## footprint (heap w') a).
  { rewrite Hfa. intros x Hxr Hxa. apply Hdom, elem_of_dom in Hxa as [o Ho].
    unfold footprint in Hxr. rewrite Hrf in Hxr.
    apply elem_of_union in Hxr as [Hxr|Hxr].
    - apply elem_of_singleton in Hxr as ->. congruence.
    - apply elem_of_list_to_set, list_elem_of_fmap in Hxr as (c & -> & Hc).
      rewrite Forall_forall in Hfresh. specialize (Hfresh c Hc). simpl in *. congruence. }
  assert (Hra : ∀ ms, frame_value (heap (Pandas.mutate_all r ms w')) a = Some t).
  { intros ms. by apply mutate_all_separate. }
  assert (Har : ∀ ms, frame_value (heap (Pandas.mutate_all a ms w')) r = Some t).
  { intros ms. by apply mutate_all_separate. }
  repeat split; try done.
  - by apply (table_view_kept _ _ _ _ t).
  - by apply (table_view_kept _ _ _ _ t).
  - destruct H as [Hown|Hs].
    + apply (table_view_kept _ _ _ _ t); [done|apply Hra|].
      apply (lists_kept_trans _ (heap w')); [done|].
      by apply mutate_all_lists_kept.
    + by apply (table_view_scalar _ _ _ _ t).
  - destruct H as [Hown|Hs].
    + apply (table_view_kept _ _ _ _ t); [done|apply Har|].
      apply (lists_kept_trans _ (heap w')); [done|].
      by apply mutate_all_lists_kept.
    + by apply (table_view_scalar _ _ _ _ t).
Qed.

Lemma table_input_deep_copy_witness :
  (∃ r w',
     load_csv (VDataFrame 3%positive) Sample.world = (Ret (VDataFrame r), w')
     ∧ r ≠ 3%positive
     ∧ frame_value (heap w') r = Some Sample.people
     ∧ frame_value
         (heap (Pandas.mutate_all r
                  [Pandas.SetCell 0 1 (CStr "carol"); Pandas.DropColumn "id"] w'))
         3%positive = Some Sample.people
     ∧ frame_value
         (heap (Pandas.mutate_all 3%positive [Pandas.SetCell 0 1 (CStr "carol")] w')) r
       = Some Sample.people)
  ∧ (∃ r w',
       load_csv (VDataFrame 3%positive) Sample.tagged_world = (Ret (VDataFrame r), w')
       ∧ table_view
           (heap (Pandas.mutate_all r
                    [Pandas.SetCell 0 0 (CStr "green"); Pandas.DropColumn "tags"] w'))
           3%positive
         = table_view (heap Sample.tagged_world) 3%positive
       ∧ table_view
           (heap (Pandas.mutate_all 3%positive [Pandas.SetColumn "tags" [CMissing]] w')) r
         = table_view (heap Sample.tagged_world) 3%positive).
Proof.
  split.
  - destruct (table_input_deep_copy 3%positive Sample.people Sample.world eq_refl)
      as (r & w' & H1 & H2 & _ & H4 & _ & H6 & H7 & _).
    exists r, w'. repeat split; auto.
  - destruct (table_input_deep_copy 3%positive [("tags", [CRef 1%positive])]
                Sample.tagged_world eq_refl)
      as (r & w' & H1 & _ & _ & _ & _ & _ & _ & _ & _ & H10).
    exists r, w'. split; [exact H1|].
    split.
    + apply (H10 [Pandas.SetCell 0 0 (CStr "green"); Pandas.DropColumn "tags"]).
      by left.
    + apply (H10 [Pandas.SetColumn "tags" [CMissing]]). by left.
Defined.

(** The mutations are not idle, and a copy that shares its buffers (deep
    set to false) would be hit by them: the model tells a deep copy from
    a shallow one. *)
Example mutation_is_seen_through_a_shallow_copy :
  let w1 := snd (Pandas.DataFrame_copy false (VDataFrame 3%positive) Sample.world) in
  let w2 := Pandas.mutate_all 4%positive [Pandas.SetCell 0 1 (CStr "carol")] w1 in
  frame_value (heap w1) 4%positive = Some Sample.people
  ∧ frame_value (heap w2) 4%positive
    = Some [("id", [CInt 1; CInt 2]); ("name", [CStr "carol"; CStr "bob"])]
  ∧ frame_value (heap w2) 3%positive
    = Some [("id", [CInt 1; CInt 2]); ("name", [CStr "carol"; CStr "bob"])].
Proof. by vm_compute. Qed.

(** ** The tokenizer on well-formed files *)

Section tokenizer_facts.
Import Text Csv.

Lemma run_nil t : run t EmptyString = t.
Proof. reflexivity. Qed.

Lemma run_cons t c s : run t (String c s) = run (tok_step t c) s.
Proof. reflexivity. Qed.

Lemma run_app t s1 s2 : run t (s1 +:+ s2) = run (run t s1) s2.
Proof. unfold run. by rewrite chars_app, fold_left_app. Qed.

Lemma snoc_append s c s' : snoc s c +:+ s' = s +:+ String c s'.
Proof. unfold snoc. by rewrite append_assoc, append_cons, append_nil_l. Qed.

Lemma plain_char_spec c :
  plain_char c = true → c ≠ comma ∧ c ≠ dquote ∧ c ≠ LF ∧ c ≠ CR.
Proof.
  unfold plain_char. rewrite !andb_true_iff, !negb_true_iff, !bool_decide_eq_false.
  tauto.
Qed.

(** Inside a plain field the characters are collected. *)
Lemma run_plain s fld r rs :
  forallb plain_char (chars s) = true →
  run (mkTok IN_FIELD fld r rs) s = mkTok IN_FIELD (fld +:+ s) r rs.
Proof.
  revert fld. induction s as [|c s IH]; intros fld Hs.
  - by rewrite run_nil, append_empty_r.
  - simpl in Hs. apply andb_true_iff in Hs as [Hc Hs].
    apply plain_char_spec in Hc as (Hcomma & _ & HLF & HCR).
    rewrite run_cons. unfold tok_step. simpl.
    rewrite !decide_False by done. unfold push_char. simpl.
    rewrite IH by done. by rewrite snoc_append.
Qed.

(** Inside a quoted field the characters are collected, a doubled quote
    as one quote. *)
Lemma run_escaped s fld r rs :
  run (mkTok IN_QUOTED_FIELD fld r rs) (escape_quotes s)
  = mkTok IN_QUOTED_FIELD (fld +:+ s) r rs.
Proof.
  revert fld. induction s as [|c s IH]; intros fld.
  - by rewrite run_nil, append_empty_r.
  - simpl. destruct (decide (c = dquote)) as [->|Hc].
    + rewrite !run_cons. unfold tok_step at 2. simpl.
      unfold tok_step. simpl. unfold push_char. simpl.
      rewrite IH. by rewrite snoc_append.
    + rewrite run_cons. unfold tok_step. simpl. rewrite decide_False by done.
      unfold push_char. simpl. rewrite IH. by rewrite snoc_append.
Qed.

Lemma run_field f r rs :
  field_ok f = true →
  run (mkTok START_FIELD EmptyString r rs) (render_field f) = after_field f r rs.
Proof.
  destruct f as [s|s]; simpl; intros Hok.
  - destruct s as [|c s]; [done|].
    simpl in Hok. apply andb_true_iff in Hok as [Hc Hs].
    apply plain_char_spec in Hc as (Hcomma & Hq & HLF & HCR).
    rewrite run_cons. unfold tok_step, step_start_field. simpl.
    rewrite !decide_False by done. unfold push_char. simpl.
    by rewrite run_plain.
  - rewrite run_cons.
    change (tok_step (mkTok START_FIELD EmptyString r rs) dquote)
      with (mkTok IN_QUOTED_FIELD EmptyString r rs).
    rewrite run_app, run_escaped. reflexivity.
Qed.

Lemma after_field_comma f r rs :
  tok_step (after_field f r rs) comma
  = mkTok START_FIELD EmptyString (r ++ [field_value f]) rs.
Proof. by destruct f as [[|c s]|s]. Qed.

Lemma after_field_LF f r rs :
  tok_step (after_field f r rs) LF
  = mkTok START_RECORD EmptyString [] (rs ++ [r ++ [field_value f]]).
Proof. by destruct f as [[|c s]|s]. Qed.

Lemma after_field_CR f r rs :
  tok_step (after_field f r rs) CR
  = mkTok EAT_CRNL EmptyString [] (rs ++ [r ++ [field_value f]]).
Proof. by destruct f as [[|c s]|s]. Qed.

Lemma after_field_eof f r rs :
  tok_eof (after_field f r rs) = Ret (rs ++ [r ++ [field_value f]]).
Proof. by destruct f as [[|c s]|s]. Qed.

Lemma join_cons sep w l :
  l ≠ [] → join sep (w :: l) = w +:+ sep +:+ join sep l.
Proof. by destruct l. Qed.

(** Fields separated by commas, read from the start of a field: the
    registers are those after the last field, the earlier fields being
    in the record. *)
Lemma run_fields fs f r rs :
  forallb field_ok (fs ++ [f]) = true →
  run (mkTok START_FIELD EmptyString r rs) (render_record (fs ++ [f]))
  = after_field f (r ++ map field_value fs) rs.
Proof.
  revert r. induction fs as [|g fs IH]; intros r Hok.
  - simpl in Hok. apply andb_true_iff in Hok as [Hf _].
    unfold render_record. simpl. rewrite run_field by done.
    by rewrite app_nil_r.
  - simpl in Hok. apply andb_true_iff in Hok as [Hg Hok].
    unfold render_record. simpl map.
    rewrite join_cons by (by destruct fs).
    fold (render_record (fs ++ [f])).
    rewrite run_app, run_field by done.
    rewrite append_cons, append_nil_l, run_cons, after_field_comma.
    rewrite IH by done. by rewrite <- app_assoc.
Qed.

(** The text of a good record starts with a character that is not a
    line break, so that the record is read as from the start of a
    field. *)
Lemma render_record_head r :
  record_ok r = true →
  ∃ c rest, render_record r = String c rest ∧ c ≠ LF ∧ c ≠ CR.
Proof.
  destruct r as [|f fs]; [done|].
  destruct f as [[|c s]|s].
  - destruct fs as [|g fs]; [done|]. intros _.
    exists comma. eexists. split; [reflexivity | done].
  - intros Hok.
    assert (Hc : plain_char c = true).
    { destruct fs; simpl in Hok; apply andb_true_iff in Hok as [Hok _];
        by apply andb_true_iff in Hok as [Hc _]. }
    apply plain_char_spec in Hc as (_ & _ & HLF & HCR).
    exists c. destruct fs as [|g fs]; eexists; (split; [reflexivity | done]).
  - intros _. exists dquote.
    destruct fs as [|g fs]; eexists; (split; [reflexivity | done]).
Qed.

Lemma record_ok_fields r : record_ok r = true → forallb field_ok r = true.
Proof. destruct r as [|[[|c s]|s] [|g fs]]; done. Qed.

Lemma run_record fs f rs :
  record_ok (fs ++ [f]) = true →
  run (mkTok START_RECORD EmptyString [] rs) (render_record (fs ++ [f]))
  = after_field f (map field_value fs) rs.
Proof.
  intros Hok.
  pose proof (run_fields fs f [] rs (record_ok_fields _ Hok)) as H.
  rewrite app_nil_l in H. rewrite <- H.
  destruct (render_record_head _ Hok) as (c & rest & -> & HLF & HCR).
  rewrite !run_cons. f_equal.
  unfold tok_step, step_start_record. simpl. by rewrite !decide_False.
Qed.

Lemma record_ok_snoc r :
  record_ok r = true → ∃ fs f, r = fs ++ [f].
Proof.
  intros Hok. destruct (exists_last (l:=r)) as (fs & f & ->); [by destruct r | eauto].
Qed.

(** A record and its end of line, read from the start of a record. *)
Lemma run_line crlf r rs :
  record_ok r = true →
  run (mkTok START_RECORD EmptyString [] rs) (render_record r +:+ eol crlf)
  = mkTok START_RECORD EmptyString [] (rs ++ [map field_value r]).
Proof.
  intros Hok. destruct (record_ok_snoc r Hok) as (fs & f & ->).
  rewrite run_app, run_record by done. rewrite map_app.
  destruct crlf; unfold eol.
  - rewrite !run_cons, run_nil, after_field_CR. reflexivity.
  - rewrite run_cons, run_nil, after_field_LF. reflexivity.
Qed.

Lemma run_lines crlf final_eol records rs :
  forallb record_ok records = true →
  tok_eof (run (mkTok START_RECORD EmptyString [] rs) (render_lines crlf final_eol records))
  = Ret (rs ++ map (map field_value) records).
Proof.
  revert rs. induction records as [|r records IH]; intros rs Hok.
  - by rewrite app_nil_r.
  - simpl in Hok. apply andb_true_iff in Hok as [Hr Hok].
    destruct records as [|r2 records].
    + simpl render_lines. destruct final_eol.
      * by rewrite run_line.
      * rewrite append_empty_r. destruct (record_ok_snoc r Hr) as (fs & f & ->).
        rewrite run_record by done.
        rewrite after_field_eof. simpl. by rewrite map_app.
    + change (render_lines crlf final_eol (r :: r2 :: records))
        with (render_record r +:+ eol crlf +:+ render_lines crlf final_eol (r2 :: records)).
      rewrite <- append_assoc, run_app, run_line by done.
      rewrite IH by done. by rewrite <- app_assoc.
Qed.

(** Reading back what was written. *)
Lemma tokenize_render crlf final_eol records :
  forallb record_ok records = true →
  tokenize (render_lines crlf final_eol records) = Ret (map (map field_value) records).
Proof. intros Hok. unfold tokenize, tok_init. by rewrite run_lines. Qed.

End tokenizer_facts.

(** ** The table of a well-formed file *)

Section table_facts.
Import Text Csv.

Lemma infer_column_length raw : length (infer_column raw) = length raw.
Proof.
  unfold infer_column.
  destruct (mapM _ raw) as [zs|] eqn:E.
  - rewrite length_map. by apply length_mapM in E.
  - by rewrite length_map.
Qed.

Lemma infer_column_lookup raw i s :
  raw !! i = Some (Some s) →
  ∃ cell, infer_column raw !! i = Some cell ∧ cell_reads cell s = true.
Proof.
  intros Hi. unfold infer_column.
  destruct (mapM _ raw) as [zs|] eqn:E.
  - apply mapM_Some in E.
    destruct (Forall2_lookup_l _ _ _ _ _ E Hi) as (z & Hz & Hp). simpl in Hp.
    exists (CInt z). rewrite list_lookup_fmap, Hz. split; [done|].
    simpl. by apply bool_decide_eq_true.
  - exists (CStr s). rewrite list_lookup_fmap, Hi. split; [done|].
    simpl. by apply bool_decide_eq_true.
Qed.

Lemma imap_fst {A B} (g : nat → A → B) (l : list A) :
  map fst (imap (fun j x => (x, g j x)) l) = l.
Proof.
  revert g. induction l as [|x l IH]; intros g; [done|].
  simpl. f_equal. apply (IH (fun j => g (S j))).
Qed.

(** The table of a header and of records no longer than the header. *)
Lemma build_table_rows (header : list string) (data : list (list string)) :
  Forall (fun r => length r = length header) data →
  ∃ t, build_table (header :: data) = Ret t
       ∧ column_names t = header
       ∧ Forall (fun col : string * list Cell => length col.2 = length data) t
       ∧ ∀ i j row s, data !! i = Some row → row !! j = Some s →
           ∃ col cell, t !! j = Some col ∧ col.2 !! i = Some cell
                       ∧ cell_reads cell s = true.
Proof.
  intros Hlen. unfold build_table.
  assert (Hall : forallb (fun r => length r <=? length header) data = true).
  { apply forallb_forall. intros r Hr. apply Nat.leb_le.
    rewrite Forall_forall in Hlen. apply list_elem_of_In in Hr. by rewrite (Hlen r Hr). }
  rewrite Hall. eexists. split; [reflexivity|]. split; [|split].
  - unfold column_names. apply imap_fst.
  - apply Forall_forall. intros col Hcol.
    apply elem_of_lookup_imap_1 in Hcol as (j & name & -> & _). simpl.
    by rewrite infer_column_length, length_map.
  - intros i j row s Hi Hj.
    assert (Hjh : is_Some (header !! j)).
    { apply lookup_lt_is_Some. rewrite Forall_forall in Hlen.
      rewrite <- (Hlen row) by (by apply list_elem_of_lookup_2 in Hi).
      by apply lookup_lt_Some in Hj. }
    destruct Hjh as [name Hname].
    destruct (infer_column_lookup (map (fun r : list string => r !! j) data) i s)
      as (cell & Hcell & Hreads).
    { by rewrite list_lookup_fmap, Hi, <- Hj. }
    eexists _, cell. split; [|split; [|exact Hreads]].
    + etrans; [apply list_lookup_imap|]. rewrite Hname. reflexivity.
    + exact Hcell.
Qed.

Lemma well_formed_spec header rows :
  well_formed header rows = true →
  forallb record_ok (header :: rows) = true
  ∧ header ≠ []
  ∧ Forall (fun r : list string => length r = length (map field_value header))
      (map (map field_value) rows).
Proof.
  unfold well_formed. intros H. apply andb_true_iff in H as [Hh Hrows].
  rewrite forallb_forall in Hrows. split; [|split].
  - simpl. rewrite Hh. apply forallb_forall. intros r Hr.
    apply Hrows in Hr. by apply andb_true_iff in Hr as [? _].
  - by destruct header.
  - apply Forall_forall. intros r Hr.
    apply list_elem_of_fmap in Hr as (r0 & -> & Hr0). rewrite !length_map.
    apply list_elem_of_In, Hrows, andb_true_iff in Hr0 as [_ Hl].
    by apply bool_decide_eq_true in Hl.
Qed.

(** What parsing a well-formed file gives. *)
Lemma parse_csv_well_formed crlf final_eol header rows :
  well_formed header rows = true →
  utf8_valid (render_lines crlf final_eol (header :: rows)) = true →
  ∃ t, parse_csv (render_lines crlf final_eol (header :: rows)) = Ret t
       ∧ column_names t = map field_value header
       ∧ n_rows t = length rows
       ∧ Forall (fun col : string * list Cell => length col.2 = length rows) t
       ∧ ∀ i j row f, rows !! i = Some row → row !! j = Some f →
           ∃ col cell, t !! j = Some col ∧ col.2 !! i = Some cell
                       ∧ cell_reads cell (field_value f) = true.
Proof.
  intros Hwf Hutf.
  destruct (well_formed_spec header rows Hwf) as (Hok & Hne & Hlen).
  unfold parse_csv, decode. rewrite Hutf, (tokenize_render _ _ _ Hok).
  change (map (map field_value) (header :: rows))
    with (map field_value header :: map (map field_value) rows).
  destruct (build_table_rows _ _ Hlen) as (t & -> & Hnames & Hcols & Hcells).
  rewrite length_map in Hcols.
  exists t. split; [done|]. split; [done|]. split; [|split; [done|]].
  - destruct t as [|[name data] t]; [by destruct header|].
    inversion Hcols; subst. done.
  - intros i j row f Hi Hj.
    apply (Hcells i j (map field_value row)); rewrite list_lookup_fmap.
    + by rewrite Hi.
    + by rewrite Hj.
Qed.

End table_facts.

Section gate_facts.

Lemma fspath_gate v r :
  os_fspath v = Ret r →
  isinstance_DataFrame v = false ∧ isinstance_str_bytes_PathLike v = true.
Proof. destruct v as [| | | | | | |? ? [|]]; by simpl. Qed.

End gate_facts.

(** C4.  A source that names a readable file holding a well-formed CSV
    document (a header and rows, every row with as many fields as the
    header) is loaded as a table with one column per header field, named
    by it, and one row per data record, the cells of row [i] reading the
    fields of data record [i]: the header is no row.  In particular the
    file of the three lines [id,name], [1,alice], [2,bob] is loaded as the
    columns [id] and [name] with the rows (1, alice) and (2, bob). *)
Theorem csv_file_loads :
  (∀ (v : PyValue) (s : string) (w : World)
     (header : list Csv.Field) (rows : list (list Csv.Field)) (crlf final_eol : bool),
      os_fspath v = Ret (FStr s) →
      Csv.well_formed header rows = true →
      Csv.utf8_valid (Csv.render_lines crlf final_eol (header :: rows)) = true →
      Os.entry_at (fs w) s
        = Some (EFile true (Csv.render_lines crlf final_eol (header :: rows))) →
      ∃ t, observe (load_csv v w) = ObsTable t
           ∧ column_names t = map Csv.field_value header
           ∧ n_rows t = length rows
           ∧ Forall (fun col : string * list Cell => length col.2 = length rows) t
           ∧ ∀ i j row f, rows !! i = Some row → row !! j = Some f →
               ∃ col cell, t !! j = Some col ∧ col.2 !! i = Some cell
                           ∧ Csv.cell_reads cell (Csv.field_value f) = true)
  ∧ (Os.entry_at (fs Sample.world) "file.csv" = Some (EFile true Sample.people_csv)
     ∧ Sample.people_csv
       = Csv.render_lines false true
           [[Csv.Plain "id"; Csv.Plain "name"];
            [Csv.Plain "1"; Csv.Plain "alice"];
            [Csv.Plain "2"; Csv.Plain "bob"]]
     ∧ ∃ t, observe (load_csv (VStr "file.csv") Sample.world) = ObsTable t
            ∧ column_names t = ["id"; "name"]
            ∧ n_rows t = 2
            ∧ table_row t 0 = Some [CInt 1; CStr "alice"]
            ∧ table_row t 1 = Some [CInt 2; CStr "bob"]
            ∧ table_row t 2 = None).
Proof.
  split.
  - intros v s w header rows crlf final_eol Hf Hwf Hutf Hfile.
    destruct (parse_csv_well_formed crlf final_eol header rows Hwf Hutf) as (t & Ht & H).
    remember (Csv.render_lines crlf final_eol (header :: rows)) as content eqn:Ec.
    destruct (fspath_gate v _ Hf) as [Hdf Hgate].
    destruct (load_csv_observe v w Hdf) as [-> _].
    unfold path_outcome. rewrite Hgate, (fspath_Path v s Hf), Hf. simpl.
    pose proof (entry_at_normalize _ _ _ Hfile) as Hn. unfold Os.entry_at in Hn.
    destruct (Os.resolve (fs w) (Pathlib.normalize s)) as [|en]; [done|]. clear Hn.
    unfold read_outcome, Os.file_bytes. unfold Os.entry_at in Hfile.
    destruct (Os.resolve (fs w) s) as [|e]; [done|]. injection Hfile as ->.
    rewrite Ht. exists t. split; [reflexivity | exact H].
  - split; [reflexivity|]. split; [reflexivity|].
    exists Sample.people. by vm_compute.
Qed.

Lemma csv_file_loads_witness :
  ∃ t, observe (load_csv (PathObject "file.csv") Sample.world) = ObsTable t
       ∧ column_names t = ["id"; "name"]
       ∧ n_rows t = 2.
Proof.
  destruct (proj1 csv_file_loads (PathObject "file.csv") "file.csv" Sample.world
              [Csv.Plain "id"; Csv.Plain "name"]
              [[Csv.Plain "1"; Csv.Plain "alice"]; [Csv.Plain "2"; Csv.Plain "bob"]]
              false true eq_refl eq_refl eq_refl eq_refl)
    as (t & H1 & H2 & H3 & _).
  exists t. split; [exact H1|]. split; [exact H2 | exact H3].
Defined.

(* ===================================================================== *)
(** * Part III: further properties of load_csv                            *)
(* ===================================================================== *)

(** ** What load_csv does to the heap *)

(** X2.  Whatever its argument and whatever the outcome, [load_csv]
    changes no object that was on the heap: every address keeps its
    object, so every DataFrame the caller holds keeps its value. *)
Theorem load_csv_only_allocates (v : PyValue) (w : World) :
  heap w ⊆ heap (snd (load_csv v w))
  ∧ (∀ a o, heap w !! a = Some o → heap (snd (load_csv v w)) !! a = Some o)
  ∧ (∀ a t, frame_value (heap w) a = Some t →
            frame_value (heap (snd (load_csv v w))) a = Some t).
Proof.
  assert (H : heap w ⊆ heap (snd (load_csv v w)))
    by apply (only_allocates_load_csv v w).
  split; [exact H|]. split.
  - intros a o Ha. by apply (lookup_weaken _ _ _ _ Ha).
  - intros a t Ha. by apply (frame_value_mono _ _ _ _ H).
Qed.

(** ** What load_csv asks of the file system *)

Section calls_facts.
Import Pathlib.

Lemma read_csv_log v w :
  ∃ rest, fs_log (snd (Csv.read_csv v w)) = fs_log w ++ rest.
Proof.
  unfold Csv.read_csv.
  destruct (os_fspath v) as [[s|b]|e];
    try (exists []; by rewrite app_nil_r).
  exists [EvOpen s].
  set (w1 := Os.log_event (EvOpen s) w).
  pose proof (read_file_spec s w) as Eopen. fold w1 in Eopen.
  destruct (Os.file_bytes (fs w) s) as [content|e];
    [|by rewrite (bind_Raise _ _ _ _ _ Eopen)].
  rewrite (bind_Ret _ _ _ _ _ Eopen).
  destruct (Csv.parse_csv content) as [t|e].
  - rewrite (bind_Ret _ _ w1 t w1) by done.
    destruct (alloc_table_spec t w1) as (a & w' & cols & Ea & _ & _ & _ & _ & _ & _ & Hlog).
    rewrite (bind_Ret _ _ _ _ _ Ea). unfold ret. simpl. by rewrite Hlog.
  - by rewrite (bind_Raise _ _ w1 e w1).
Qed.

End calls_facts.

(** X1.  [load_csv] changes no file, and it touches the file system only
    for a source that [pathlib.Path] accepts: for any other source (a
    DataFrame, a value of a wrong type, bytes) no call is made.  For a
    source that makes the path [p], the first call is the existence check
    on [p], the normal form of the name, and nothing is opened before it;
    when the check finds no entry it is the only call. *)
Theorem load_csv_file_system_calls (v : PyValue) (w : World) :
  fs (snd (load_csv v w)) = fs w
  ∧ ((∀ p, Path v ≠ Ret p) → fs_log (snd (load_csv v w)) = fs_log w)
  ∧ (∀ p, Path v = Ret p →
          ∃ rest, fs_log (snd (load_csv v w)) = fs_log w ++ EvStat p :: rest
                  ∧ (Os.entry_at (fs w) p = None → rest = [])).
Proof.
  split; [|split].
  - destruct (isinstance_DataFrame v) eqn:Hdf.
    + unfold load_csv. rewrite Hdf. by destruct (fs_untouched_copy true v w).
    + by destruct (load_csv_observe v w Hdf).
  - intros HP. destruct (isinstance_DataFrame v) eqn:Hdf.
    + unfold load_csv. rewrite Hdf. by destruct (fs_untouched_copy true v w).
    + destruct (isinstance_str_bytes_PathLike v) eqn:Hgate;
        [|unfold load_csv; by rewrite Hdf, Hgate].
      destruct (Path v) as [p|e] eqn:E; [by destruct (HP p)|].
      unfold load_csv, bind, lift. by rewrite Hdf, Hgate, E.
  - intros p HP. rewrite (load_csv_path v p w HP). unfold Os.entry_at.
    destruct (Os.resolve (fs w) p) as [e|en].
    + by exists [].
    + destruct (read_csv_log v (Os.log_event (EvStat p) w)) as [rest Hrest].
      exists rest. split; [|done]. rewrite Hrest. simpl. by rewrite <- app_assoc.
Qed.

Lemma load_csv_file_system_calls_witness :
  fs_log (snd (load_csv (VBytes "file.csv") Sample.world)) = []
  ∧ fs_log (snd (load_csv (VStr "./gone.csv") Sample.world)) = [EvStat "gone.csv"]
  ∧ ∃ rest, fs_log (snd (load_csv (VStr "./file.csv") Sample.world))
            = EvStat "file.csv" :: rest.
Proof.
  split; [|split].
  - apply (proj1 (proj2 (load_csv_file_system_calls (VBytes "file.csv") Sample.world))).
    intros p. discriminate.
  - destruct (proj2 (proj2 (load_csv_file_system_calls (VStr "./gone.csv") Sample.world))
                "gone.csv" eq_refl) as (rest & Hlog & Hrest).
    rewrite Hlog, (Hrest eq_refl). reflexivity.
  - destruct (proj2 (proj2 (load_csv_file_system_calls (VStr "./file.csv") Sample.world))
                "file.csv" eq_refl) as (rest & Hlog & _).
    exists rest. exact Hlog.
Defined.

(** ** What load_csv returns *)

Section returns_facts.
Import Pandas.

(** Copied buffers are new and hold a value. *)
Lemma copy_columns_Ret cols w cols' w' :
  copy_columns cols w = (Ret cols', w') →
  heap w ⊆ heap w'
  ∧ Forall (fun c : string * addr => heap w !! c.2 = None) cols'
  ∧ ∃ t, columns_value (heap w') cols' = Some t.
Proof.
  revert w cols' w'. induction cols as [|[name b] rest IH]; intros w cols' w'; simpl.
  - unfold ret. intros [= <- <-]. split; [done|]. split; [constructor|]. by exists [].
  - unfold bind at 1. unfold deref_array.
    destruct (heap w !! b) as [[data| |]|] eqn:Eb; try done.
    destruct (alloc_spec (OArray data) w) as (b' & Ea & Hb').
    rewrite (bind_Ret _ _ _ _ _ Ea).
    set (w1 := mkWorld _ _ _).
    assert (Hsub1 : heap w ⊆ heap w1) by by apply insert_subseteq.
    assert (Hb1 : heap w1 !! b' = Some (OArray data)) by apply lookup_insert_eq.
    clearbody w1. unfold bind.
    destruct (copy_columns rest w1) as [[rest'|e] w2] eqn:Er; [|done].
    unfold ret. intros [= <- <-].
    destruct (IH _ _ _ Er) as (Hsub & Hfresh & t & Ht).
    split; [by etrans|]. split.
    + constructor; [done|].
      eapply Forall_impl; [exact Hfresh|]. intros c Hc. cbv beta in *.
      destruct (heap w !! c.2) as [o|] eqn:Eo; [|done].
      by rewrite (lookup_weaken _ _ _ _ Eo Hsub1) in Hc.
    + exists ((name, data) :: t). simpl.
      by rewrite (lookup_weaken _ _ _ _ Hb1 Hsub), Ht.
Qed.

(** The shape of every successful call: a new DataFrame object on new
    buffers, with a value, on a heap that kept what it had. *)
Lemma load_csv_Ret v w x w' :
  load_csv v w = (Ret x, w') →
  ∃ r cols t,
    x = VDataFrame r
    ∧ heap w ⊆ heap w'
    ∧ heap w !! r = None
    ∧ heap w' !! r = Some (OFrame cols)
    ∧ Forall (fun c : string * addr => heap w !! c.2 = None) cols
    ∧ frame_value (heap w') r = Some t.
Proof.
  destruct (isinstance_DataFrame v) eqn:Hdf.
  - unfold load_csv. rewrite Hdf. destruct v as [a| | | | | | |]; try done. simpl.
    unfold bind at 1. unfold deref_frame.
    destruct (heap w !! a) as [[|cols0|]|] eqn:Ea; try done.
    unfold bind at 1.
    destruct (copy_columns cols0 w) as [[cols|e] w1] eqn:Ec; [|done].
    destruct (copy_columns_Ret _ _ _ _ Ec) as (Hsub & Hfresh & t & Ht).
    destruct (alloc_spec (OFrame cols) w1) as (r & Er & Hr).
    rewrite (bind_Ret _ _ _ _ _ Er). unfold ret. intros [= <- <-].
    assert (Hsub1 : heap w1 ⊆ <[r:=OFrame cols]> (heap w1)) by by apply insert_subseteq.
    exists r, cols, t. simpl. split; [done|]. split; [by etrans|]. split.
    { destruct (heap w !! r) as [o|] eqn:Eo; [|done].
      by rewrite (lookup_weaken _ _ _ _ Eo Hsub) in Hr. }
    split; [apply lookup_insert_eq|]. split; [done|].
    unfold frame_value. rewrite lookup_insert_eq.
    by apply (columns_value_mono (heap w1)).
  - destruct (isinstance_str_bytes_PathLike v) eqn:Hgate;
      [|unfold load_csv; rewrite Hdf, Hgate; done].
    destruct (Path v) as [p|e] eqn:HP;
      [|unfold load_csv, bind, lift; rewrite Hdf, Hgate, HP; done].
    destruct (Path_Ret_fspath v p HP) as (s & Hf & ->).
    rewrite (load_csv_path v _ w HP).
    destruct (Os.resolve (fs w) (Pathlib.normalize s)) as [e|en]; [done|].
    unfold Csv.read_csv. rewrite Hf.
    set (w1 := Os.log_event (EvStat (Pathlib.normalize s)) w).
    set (w2 := Os.log_event (EvOpen s) w1).
    pose proof (read_file_spec s w1) as Eopen. fold w2 in Eopen.
    destruct (Os.file_bytes (fs w1) s) as [content|e];
      [|by rewrite (bind_Raise _ _ _ _ _ Eopen)].
    rewrite (bind_Ret _ _ _ _ _ Eopen).
    destruct (Csv.parse_csv content) as [t|e]; [|by rewrite (bind_Raise _ _ w2 e w2)].
    rewrite (bind_Ret _ _ w2 t w2) by done.
    destruct (alloc_table_spec t w2)
      as (r & w3 & cols & Ea & Hsub & Hr & Hrf & Hfresh & Hv & _ & _).
    rewrite (bind_Ret _ _ _ _ _ Ea). unfold ret. intros [= <- <-].
    exists r, cols, t. done.
Qed.

(** A new DataFrame object on new buffers is separate from every
    DataFrame that had a value before. *)
Lemma new_frame_separate (h h' : gmap addr Obj) r cols a t :
  h ⊆ h' → h !! r = None → h' !! r = Some (OFrame cols) →
  Forall (fun c : string * addr => h !! c.2 = None) cols →
  frame_value h a = Some t →
  r ≠ a ∧ footprint h' r ## footprint h' a ∧ frame_value h' a = Some t.
Proof.
  intros Hsub Hr Hrf Hfresh Hv.
  pose proof (frame_value_footprint_dom _ _ _ Hv) as Hdom.
  assert (Hne : r ≠ a).
  { intros ->. unfold frame_value in Hv. by rewrite Hr in Hv. }
  assert (Hfa : footprint h' a = footprint h a).
  { unfold footprint, frame_value in *.
    destruct (h !! a) as [o|] eqn:Eo; [|done].
    by rewrite (lookup_weaken _ _ _ _ Eo Hsub). }
  split; [done|]. split; [|by apply (frame_value_mono h)].
  rewrite Hfa. intros x Hxr Hxa. apply Hdom, elem_of_dom in Hxa as [o Ho].
  unfold footprint in Hxr. rewrite Hrf in Hxr.
  apply elem_of_union in Hxr as [Hxr|Hxr].
  - apply elem_of_singleton in Hxr as ->. congruence.
  - apply elem_of_list_to_set, list_elem_of_fmap in Hxr as (c & -> & Hc).
    rewrite Forall_forall in Hfresh. specialize (Hfresh c Hc). simpl in *. congruence.
Qed.

(** The cells of a table read from a file are numbers, text or missing:
    none is a reference. *)
Lemma infer_column_scalar raw : forallb scalar_cell (Csv.infer_column raw) = true.
Proof.
  unfold Csv.infer_column. apply forallb_forall. intros c Hc.
  destruct (mapM _ raw) as [zs|].
  - apply in_map_iff in Hc as (z & <- & _). done.
  - apply in_map_iff in Hc as (o & <- & _). by destruct o.
Qed.

Lemma parse_csv_scalar bytes t :
  Csv.parse_csv bytes = Ret t → scalar_table t = true.
Proof.
  unfold Csv.parse_csv.
  destruct (Csv.decode bytes) as [text|e]; [|done].
  destruct (Csv.tokenize text) as [records|e]; [|done].
  unfold Csv.build_table. destruct records as [|header data]; [done|].
  destruct (forallb _ data); [|done]. intros [= <-].
  unfold scalar_table. apply forallb_forall. intros col Hcol.
  apply list_elem_of_In, list_elem_of_lookup in Hcol as [j Hj].
  assert (E : imap (fun (j : nat) (name : string) =>
                      (name, Csv.infer_column (map (fun r : list string => r !! j) data)))
                header !! j = Some col) by exact Hj.
  rewrite list_lookup_imap in E.
  destruct (header !! j) as [name|]; [|done]. injection E as <-.
  apply infer_column_scalar.
Qed.

Lemma path_outcome_scalar files v t :
  path_outcome files v = Ret t → scalar_table t = true.
Proof.
  unfold path_outcome.
  destruct (negb (isinstance_str_bytes_PathLike v)); [done|].
  destruct (Path v) as [p|e]; [|done].
  destruct (os_fspath v) as [[s|b]|e]; try done.
  destruct (Os.resolve files p) as [e|en]; [by destruct (Os.ignore_error e)|].
  rewrite read_outcome_bytes.
  destruct (Os.file_bytes files s) as [content|e]; [|done].
  apply parse_csv_scalar.
Qed.

(** A table that [load_csv] returns for a source that is not a DataFrame
    holds no reference. *)
Lemma load_csv_scalar v w r w' t :
  isinstance_DataFrame v = false →
  load_csv v w = (Ret (VDataFrame r), w') →
  frame_value (heap w') r = Some t →
  scalar_table t = true.
Proof.
  intros Hdf H Hv. destruct (load_csv_observe v w Hdf) as [Hobs _].
  rewrite H in Hobs. unfold observe in Hobs. simpl in Hobs. rewrite Hv in Hobs.
  apply (path_outcome_scalar (fs w) v).
  destruct (path_outcome (fs w) v) as [t'|e]; simpl in Hobs; congruence.
Qed.

End returns_facts.

(** X3.  A call that returns, returns a DataFrame, and a new one: its
    address was not allocated before the call (so it is neither the
    argument nor any object the caller holds), and it has a value. *)
Theorem load_csv_returns_new_table (v x : PyValue) (w w' : World) :
  load_csv v w = (Ret x, w') →
  ∃ r t, x = VDataFrame r
         ∧ heap w !! r = None
         ∧ frame_value (heap w') r = Some t.
Proof.
  intros H. destruct (load_csv_Ret v w x w' H) as (r & cols & t & -> & _ & Hr & _ & _ & Hv).
  by exists r, t.
Qed.

Lemma load_csv_returns_new_table_witness :
  ∃ r t, VDataFrame 6%positive = VDataFrame r
         ∧ heap Sample.world !! r = None
         ∧ frame_value (heap (snd (load_csv (VStr "file.csv") Sample.world))) r = Some t.
Proof.
  exact (load_csv_returns_new_table (VStr "file.csv") (VDataFrame 6%positive) Sample.world
           (snd (load_csv (VStr "file.csv") Sample.world)) eq_refl).
Defined.

(** X4.  The table a call returns has storage of its own, apart from that
    of every table that was on the heap before the call, whatever the
    source (a path as well as a DataFrame): mutations of the returned
    table leave every earlier table with its value, and mutations of an
    earlier table leave the returned table with its value.  What the
    tables show, the objects their cells refer to included, is kept as
    well by mutations of the tables' own storage; and a table read from a
    file, whose cells are no references, shows the same whatever is done
    through an earlier table.  Two calls on the same file therefore give
    tables that do not affect each other. *)
Theorem loaded_table_has_own_storage
    (v : PyValue) (w w' : World) (r a : addr) (t : Table) :
  load_csv v w = (Ret (VDataFrame r), w') →
  frame_value (heap w) a = Some t →
  r ≠ a
  ∧ (∀ ms, frame_value (heap (Pandas.mutate_all r ms w')) a = Some t)
  ∧ (∀ ms, frame_value (heap (Pandas.mutate_all a ms w')) r = frame_value (heap w') r)
  ∧ (∀ ms, forallb Pandas.own_storage ms = true →
           table_view (heap (Pandas.mutate_all r ms w')) a = table_view (heap w) a
           ∧ table_view (heap (Pandas.mutate_all a ms w')) r = table_view (heap w') r)
  ∧ (isinstance_DataFrame v = false →
     ∀ ms, table_view (heap (Pandas.mutate_all a ms w')) r = table_view (heap w') r).
Proof.
  intros H Hv.
  pose proof (only_allocates_lists_kept (load_csv v) w (only_allocates_load_csv v)) as Hkept.
  rewrite H in Hkept. simpl in Hkept.
  destruct (load_csv_Ret v w _ w' H)
    as (r0 & cols & t' & [= <-] & Hsub & Hr & Hrf & Hfresh & Hvr).
  destruct (new_frame_separate _ _ _ _ _ _ Hsub Hr Hrf Hfresh Hv) as (Hne & Hdisj & Hva).
  assert (Hra : ∀ ms, frame_value (heap (Pandas.mutate_all r ms w')) a = Some t).
  { intros ms. by apply mutate_all_separate. }
  assert (Har : ∀ ms, frame_value (heap (Pandas.mutate_all a ms w')) r = Some t').
  { intros ms. by apply mutate_all_separate. }
  split; [done|]. split; [done|]. split; [|split].
  - intros ms. by rewrite Hvr.
  - intros ms Hown. split.
    + apply (table_view_kept _ _ _ _ t); [done|apply Hra|].
      apply (lists_kept_trans _ (heap w')); [done|].
      by apply mutate_all_lists_kept.
    + apply (table_view_kept _ _ _ _ t'); [done|apply Har|].
      by apply mutate_all_lists_kept.
  - intros Hdf ms.
    apply (table_view_scalar _ _ _ _ t'); [done|apply Har|].
    by apply (load_csv_scalar v w r w').
Qed.

Lemma loaded_table_has_own_storage_witness :
  6%positive ≠ 3%positive
  ∧ (∀ ms, frame_value
             (heap (Pandas.mutate_all 6%positive ms
                      (snd (load_csv (VStr "file.csv") Sample.tagged_world)))) 3%positive
           = Some [("tags", [CRef 1%positive])])
  ∧ (∀ ms, table_view
             (heap (Pandas.mutate_all 3%positive ms
                      (snd (load_csv (VStr "file.csv") Sample.tagged_world)))) 6%positive
           = table_view (heap (snd (load_csv (VStr "file.csv") Sample.tagged_world)))
               6%positive).
Proof.
  destruct (loaded_table_has_own_storage (VStr "file.csv") Sample.tagged_world
              (snd (load_csv (VStr "file.csv") Sample.tagged_world)) 6%positive 3%positive
              [("tags", [CRef 1%positive])] eq_refl eq_refl)
    as (H1 & H2 & _ & _ & H5).
  split; [exact H1|]. split; [exact H2|]. exact (H5 eq_refl).
Defined.

(** Two calls on the same file: the second table is separate from the
    first. *)
Example second_load_is_separate_from_first :
  let w1 := snd (load_csv (VStr "file.csv") Sample.world) in
  let w2 := snd (load_csv (VStr "file.csv") w1) in
  let w3 := Pandas.mutate_all 9%positive [Pandas.SetCell 1 1 (CStr "eve")] w2 in
  fst (load_csv (VStr "file.csv") w1) = Ret (VDataFrame 9%positive)
  ∧ frame_value (heap w3) 9%positive
    = Some [("id", [CInt 1; CInt 2]); ("name", [CStr "alice"; CStr "eve"])]
  ∧ frame_value (heap w3) 6%positive = Some Sample.people.
Proof. by vm_compute. Qed.

(** A list put into a cell of a table read from a file is shared with
    whoever else refers to it: what is kept apart is the storage of the
    tables, not the objects a caller stores in them. *)
Example stored_reference_is_shared :
  let w1 := snd (load_csv (VStr "file.csv") Sample.tagged_world) in
  let w2 := Pandas.mutate_all 6%positive
              [Pandas.SetCell 0 1 (CRef 1%positive);
               Pandas.AppendToCell 0 1 (CStr "blue")] w1 in
  table_view (heap w1) 3%positive
  = Some [("tags", [(CRef 1%positive, Some [CStr "red"])])]
  ∧ table_view (heap w2) 3%positive
    = Some [("tags", [(CRef 1%positive, Some [CStr "red"; CStr "blue"])])].
Proof. by vm_compute. Qed.

(** ** Sources that are path-like objects *)

(** X5.  An object of any class that defines [__fspath__] returning text
    is taken as a path: when something exists at that path the call is,
    outcome and world, the call on the text itself; when nothing exists
    the call raises [FileNotFoundError] after the same existence check,
    with a message built from [str(source)], which need not show the
    path; when the check itself fails the call raises the error of the
    check.  In all cases the class of the outcome is that of the call on
    the text. *)
Theorem path_like_object_is_read_as_its_fspath
    (cls str s : string) (w : World) :
  (Os.entry_at (fs w) (Pathlib.normalize s) ≠ None →
   load_csv (VObj cls str (Some (FStr s))) w = load_csv (VStr s) w)
  ∧ (Os.nothing_at (fs w) (Pathlib.normalize s) = true →
     load_csv (VObj cls str (Some (FStr s))) w
     = (Raise (mkExn FileNotFoundError ("File " +:+ str +:+ " not found.")),
        Os.log_event (EvStat (Pathlib.normalize s)) w))
  ∧ (∀ e, Os.resolve (fs w) (Pathlib.normalize s) = inl e →
          Os.ignore_error e = false →
          load_csv (VObj cls str (Some (FStr s))) w
          = (Raise (Os.errno_exn e (Pathlib.normalize s)),
             Os.log_event (EvStat (Pathlib.normalize s)) w))
  ∧ observe_kind (load_csv (VObj cls str (Some (FStr s))) w)
    = observe_kind (load_csv (VStr s) w).
Proof.
  rewrite (load_csv_path (VObj cls str (Some (FStr s))) (Pathlib.normalize s) w eq_refl).
  rewrite (load_csv_path (VStr s) (Pathlib.normalize s) w eq_refl).
  unfold Os.entry_at, Os.nothing_at.
  destruct (Os.resolve (fs w) (Pathlib.normalize s)) as [e|en].
  - split; [done|]. split; [by intros ->|]. split.
    + by intros e' [= <-] ->.
    + by destruct (Os.ignore_error e).
  - split; [done|]. split; [done|]. split; done.
Qed.

Lemma path_like_object_is_read_as_its_fspath_witness :
  load_csv (VObj "__main__.Upload" "<Upload 17>" (Some (FStr "file.csv"))) Sample.world
  = load_csv (VStr "file.csv") Sample.world
  ∧ observe (load_csv (VObj "__main__.Upload" "<Upload 17>" (Some (FStr "gone.csv")))
               Sample.world)
    = ObsError FileNotFoundError "File <Upload 17> not found."
  ∧ Text.includes "gone.csv" "File <Upload 17> not found." = false
  ∧ observe (load_csv (VObj "__main__.Upload" "<Upload 17>" (Some (FStr "vault/file.csv")))
               Sample.guarded_world)
    = ObsError PermissionError "[Errno 13] Permission denied: 'vault/file.csv'".
Proof.
  split.
  - refine (proj1 (path_like_object_is_read_as_its_fspath
                     "__main__.Upload" "<Upload 17>" "file.csv" Sample.world) _).
    vm_compute. discriminate.
  - split; [|split; [reflexivity|]].
    + rewrite (proj1 (proj2 (path_like_object_is_read_as_its_fspath
                               "__main__.Upload" "<Upload 17>" "gone.csv" Sample.world))
                 eq_refl).
      reflexivity.
    + rewrite (proj1 (proj2 (proj2 (path_like_object_is_read_as_its_fspath
                                      "__main__.Upload" "<Upload 17>" "vault/file.csv"
                                      Sample.guarded_world)))
                 Os.EACCES eq_refl eq_refl).
      reflexivity.
Defined.

(** X7.  A source whose [os.fspath] is a byte string, be it a [bytes]
    object or a path-like object whose [__fspath__] returns bytes, passes
    the type gate and is refused by [pathlib.Path]: the call raises
    [TypeError], with a message that is not the one of the type gate, and
    the world is as it was, no file-system call made. *)
Theorem fspath_bytes_source_raises_type_error (v : PyValue) (b : string) (w : World) :
  os_fspath v = Ret (FBytes b) →
  isinstance_DataFrame v = false
  ∧ isinstance_str_bytes_PathLike v = true
  ∧ ∃ msg, load_csv v w = (Raise (mkExn TypeError msg), w)
           ∧ Text.starts_with "source must be a file path" msg = false.
Proof.
  intros Hf. destruct (fspath_gate v _ Hf) as [Hdf Hgate].
  split; [done|]. split; [done|].
  unfold load_csv, bind, lift, Path. rewrite Hdf, Hgate, Hf.
  eexists. split; reflexivity.
Qed.

Lemma fspath_bytes_source_raises_type_error_witness :
  observe_kind (load_csv (VObj "__main__.RawName" "raw" (Some (FBytes "file.csv")))
                  Sample.world)
  = ObsError TypeError EmptyString
  ∧ fs_log (snd (load_csv (VObj "__main__.RawName" "raw" (Some (FBytes "file.csv")))
                   Sample.world)) = [].
Proof.
  destruct (proj2 (proj2 (fspath_bytes_source_raises_type_error
                            (VObj "__main__.RawName" "raw" (Some (FBytes "file.csv")))
                            "file.csv" Sample.world eq_refl))) as (msg & -> & _).
  split; reflexivity.
Defined.

(** ** The check and the open look at different names *)

(** X6.  The existence check is made on the normal form of the name, the
    open on the name as given.  When the normal form names an entry and
    the name as given does not resolve, the call passes its own check and
    raises the error of the open, with the message of the operating
    system, the files and the heap being as they were.  There are three
    kinds of such names: the empty string, whose normal form is the
    current directory ([FileNotFoundError]); a name of [PATH_MAX] bytes or
    more with a shorter normal form ([OSError]); and a name that ends
    with a slash or a dot segment after an entry that is no directory
    that may be searched ([NotADirectoryError] after a regular file,
    [PermissionError] after a directory without search permission). *)
Theorem open_error_after_passed_check
    (v : PyValue) (s : string) (e : Os.Errno) (w : World) :
  os_fspath v = Ret (FStr s) →
  Os.entry_at (fs w) (Pathlib.normalize s) ≠ None →
  Os.resolve (fs w) s = inl e →
  (∃ w', load_csv v w = (Raise (Os.errno_exn e s), w') ∧ fs w' = fs w ∧ heap w' = heap w)
  ∧ (s = EmptyString ∧ e = Os.ENOENT
     ∨ Os.PATH_MAX ≤ String.length s ∧ e = Os.ENAMETOOLONG
     ∨ Pathlib.demands_directory s = true ∧ (e = Os.ENOTDIR ∨ e = Os.EACCES)).
Proof.
  intros Hf Hcheck Hopen.
  rewrite (load_csv_found v _ w (fspath_Path v s Hf) Hcheck). split.
  - unfold Csv.read_csv. rewrite Hf.
    pose proof (read_file_spec s (Os.log_event (EvStat (Pathlib.normalize s)) w)) as Eopen.
    unfold Os.file_bytes in Eopen. simpl in Eopen. rewrite Hopen in Eopen.
    rewrite (bind_Raise _ _ _ _ _ Eopen). by eexists.
  - destruct (entry_at_resolve _ _ Hcheck) as [en Hn].
    exact (resolve_fails_after_normal_form _ _ _ _ Hn Hopen).
Qed.

Lemma open_error_after_passed_check_witness :
  (∃ w', load_csv (VStr EmptyString) Sample.world
         = (Raise (mkExn FileNotFoundError "[Errno 2] No such file or directory: ''"), w')
         ∧ fs w' = fs Sample.world ∧ heap w' = heap Sample.world)
  ∧ (∃ w', load_csv (VStr "file.csv/") Sample.world
           = (Raise (mkExn NotADirectoryError "[Errno 20] Not a directory: 'file.csv/'"), w')
           ∧ fs w' = fs Sample.world ∧ heap w' = heap Sample.world)
  ∧ (∃ w', load_csv (VStr "vault/.") Sample.guarded_world
           = (Raise (mkExn PermissionError "[Errno 13] Permission denied: 'vault/.'"), w')
           ∧ fs w' = fs Sample.guarded_world ∧ heap w' = heap Sample.guarded_world).
Proof.
  assert (H1 : Os.entry_at (fs Sample.world) (Pathlib.normalize EmptyString) ≠ None)
    by (vm_compute; discriminate).
  assert (H2 : Os.entry_at (fs Sample.world) (Pathlib.normalize "file.csv/") ≠ None)
    by (vm_compute; discriminate).
  assert (H3 : Os.entry_at (fs Sample.guarded_world) (Pathlib.normalize "vault/.") ≠ None)
    by (vm_compute; discriminate).
  split; [|split].
  - exact (proj1 (open_error_after_passed_check (VStr EmptyString) EmptyString Os.ENOENT
                    Sample.world eq_refl H1 eq_refl)).
  - exact (proj1 (open_error_after_passed_check (VStr "file.csv/") "file.csv/" Os.ENOTDIR
                    Sample.world eq_refl H2 eq_refl)).
  - exact (proj1 (open_error_after_passed_check (VStr "vault/.") "vault/." Os.EACCES
                    Sample.guarded_world eq_refl H3 eq_refl)).
Defined.

(** A name of 4208 bytes whose normal form is [file.csv]: the check
    passes and the open is refused. *)
Example roundabout_name_is_too_long_to_open :
  String.length Sample.roundabout_name = 4208
  ∧ Pathlib.normalize Sample.roundabout_name = "file.csv"
  ∧ observe_kind (load_csv (VStr Sample.roundabout_name) Sample.world)
    = ObsError OSError EmptyString
  ∧ observe_kind (load_csv (PathObject Sample.roundabout_name) Sample.world)
    = ObsTable Sample.people.
Proof. by vm_compute. Qed.
